(** * CarnivalScript: the VS Code extension's validator and completion provider

    A shallow embedding of [src/extension.ts]: the instruction table
    [INSTRUCTIONS], the body of [updateDiagnostics] (missing meta keys,
    register range scan, per-line instruction validation) and
    [CarnivalCompletionProvider.provideCompletionItems].

    JavaScript strings are sequences of UTF-16 code units; a code unit is
    an [N] and a string a [list N].  Regular expressions of the source are
    embedded one by one as matchers that follow the backtracking semantics
    of the pattern they are named after. *)

From Stdlib Require Import Strings.String Strings.Ascii Numbers.DecimalString.
From Stdlib Require Import List Bool Arith NArith ZArith Lia Sorting.Sorted.
Import ListNotations.

Local Open Scope N_scope.

(** ** Strings of code units *)

Definition CodeUnit := N.
Definition jsstring := list CodeUnit.

(** A literal of the source, written as a Rocq string of ASCII characters. *)
Definition str (s : string) : jsstring :=
  map N_of_ascii (list_ascii_of_string s).

Fixpoint eqbS (a b : jsstring) : bool :=
  match a, b with
  | [], [] => true
  | x :: a', y :: b' => (x =? y) && eqbS a' b'
  | _, _ => false
  end.

(** [String.prototype.startsWith] *)
Fixpoint startsWith (s prefix : jsstring) {struct prefix} : bool :=
  match prefix, s with
  | [], _ => true
  | p :: prefix', c :: s' => (c =? p) && startsWith s' prefix'
  | _ :: _, [] => false
  end.

(** [String.prototype.includes]: a substring test at every offset. *)
Fixpoint includes (s key : jsstring) : bool :=
  startsWith s key ||
  match s with
  | [] => false
  | _ :: s' => includes s' key
  end.

(** [Array.prototype.includes] on an array of strings. *)
Definition arrayIncludes (xs : list jsstring) (x : jsstring) : bool :=
  existsb (eqbS x) xs.

(** [Array.prototype.join] *)
Fixpoint join (sep : jsstring) (xs : list jsstring) : jsstring :=
  match xs with
  | [] => []
  | [x] => x
  | x :: rest => x ++ sep ++ join sep rest
  end.

(** A number inside a template literal: its decimal digits. *)
Definition decimal (n : nat) : jsstring :=
  str (NilEmpty.string_of_uint (Nat.to_uint n)).

(** ** Character classes of the regular expressions *)

(** [\d] *)
Definition isDigit (c : CodeUnit) : bool := (48 <=? c) && (c <=? 57).

(** [[A-Za-z]] *)
Definition isLetter (c : CodeUnit) : bool :=
  ((65 <=? c) && (c <=? 90)) || ((97 <=? c) && (c <=? 122)).

(** [\w], that is [[A-Za-z0-9_]] *)
Definition isWord (c : CodeUnit) : bool :=
  isLetter c || isDigit c || (c =? 95).

(** [\s], which is also the set [String.prototype.trim] strips: the
    ECMAScript WhiteSpace and LineTerminator code points. *)
Definition isSpace (c : CodeUnit) : bool :=
  ((9 <=? c) && (c <=? 13)) || (c =? 32) || (c =? 160) || (c =? 5760)
  || ((8192 <=? c) && (c <=? 8202)) || (c =? 8232) || (c =? 8233)
  || (c =? 8239) || (c =? 8287) || (c =? 12288) || (c =? 65279).

(** The complement of [.] without the [s] flag: LF, CR, LS, PS. *)
Definition isLineTerminator (c : CodeUnit) : bool :=
  (c =? 10) || (c =? 13) || (c =? 8232) || (c =? 8233).

(** [r] under the [i] flag: only [r] and [R] canonicalize to [R]. *)
Definition isR (c : CodeUnit) : bool := (c =? 114) || (c =? 82).

Definition quote : CodeUnit := 39.

(** ** Case conversion *)

Definition isAscii (c : CodeUnit) : bool := c <? 128.

Definition asciiUpper (c : CodeUnit) : CodeUnit :=
  if (97 <=? c) && (c <=? 122) then c - 32 else c.

Definition asciiLower (c : CodeUnit) : CodeUnit :=
  if (65 <=? c) && (c <=? 90) then c + 32 else c.

(** ** Data model *)

(** The operand kinds named in the signatures: ["Reg"], ["Num"],
    ["Label"], ["String"]. *)
Inductive OperandKind := Reg | Num | Label | String_.

Definition kindName (k : OperandKind) : jsstring :=
  match k with
  | Reg => str "Reg"
  | Num => str "Num"
  | Label => str "Label"
  | String_ => str "String"
  end.

Definition Signature := list (list OperandKind).

(** [const INSTRUCTIONS: Record<string, string[][]>], in insertion order. *)
Definition INSTRUCTIONS : list (jsstring * Signature) :=
  [ (str "MOV", [[Reg; Num]; [Reg]]);
    (str "LOD", [[Num]; [Reg]]);
    (str "STR", [[Reg; Num]; [Num]]);
    (str "PSH", [[Reg; Num]]);
    (str "POP", [[Reg]]);
    (str "ADD", [[Reg; Num]; [Reg; Num]; [Reg]]);
    (str "SUB", [[Reg; Num]; [Reg; Num]; [Reg]]);
    (str "MOD", [[Reg; Num]; [Reg; Num]; [Reg]]);
    (str "XOR", [[Reg; Num]; [Reg; Num]; [Reg]]);
    (str "AND", [[Reg; Num]; [Reg; Num]; [Reg]]);
    (str "NOT", [[Reg; Num]; [Reg]]);
    (str "OR", [[Reg; Num]; [Reg; Num]; [Reg]]);
    (str "JMP", [[Num; Label]]);
    (str "CAL", [[Num; Label]]);
    (str "RET", []);
    (str "BRZ", [[Reg; Num]; [Num; Label]]);
    (str "BNZ", [[Reg; Num]; [Num; Label]]);
    (str "IN", [[Num]; [Reg]]);
    (str "OUT", [[Num]; [Reg; Num; String_]]);
    (str "GIP", [[Reg]]);
    (str "HLT", []);
    (str "BRG", [[Reg; Num]; [Reg; Num]; [Label; Num]]);
    (str "BNG", [[Reg; Num]; [Reg; Num]; [Label; Num]]);
    (str "BRL", [[Reg; Num]; [Reg; Num]; [Label; Num]]);
    (str "BNL", [[Reg; Num]; [Reg; Num]; [Label; Num]]) ].

(** [Object.keys(INSTRUCTIONS)] *)
Definition mnemonics : list jsstring := map fst INSTRUCTIONS.

(** [INSTRUCTIONS[instruction]] for an upper-cased [instruction]; [None]
    is [undefined].  The members inherited from [Object.prototype] are all
    spelled with lower-case letters, so an upper-cased key reaches none. *)
Fixpoint lookupIn (table : list (jsstring * Signature)) (key : jsstring)
  : option Signature :=
  match table with
  | [] => None
  | (k, sig) :: rest => if eqbS k key then Some sig else lookupIn rest key
  end.

Definition lookup (key : jsstring) : option Signature :=
  lookupIn INSTRUCTIONS key.

(** ** Findings *)

Record Position := { line : nat; character : nat }.

Record Range := { start : Position; end_ : Position }.

Definition isBefore (p q : Position) : bool :=
  (line p <? line q)%nat || ((line p =? line q)%nat && (character p <? character q)%nat).

(** [new vscode.Range(start, end)]: the host swaps the two positions when
    [end] lies before [start]. *)
Definition newRange (a b : Position) : Range :=
  if isBefore b a then {| start := b; end_ := a |} else {| start := a; end_ := b |}.

(** [new vscode.Range(startLine, startCharacter, endLine, endCharacter)] *)
Definition newRange4 (l1 c1 l2 c2 : nat) : Range :=
  newRange {| line := l1; character := c1 |} {| line := l2; character := c2 |}.

Inductive DiagnosticSeverity := Error | Warning | Information | HintSeverity.

Record Diagnostic := {
  range : Range;
  message : jsstring;
  severity : DiagnosticSeverity;
  code : option jsstring
}.

(** [new vscode.Diagnostic(range, message, severity)]: no [code] yet. *)
Definition newDiagnostic (r : Range) (m : jsstring) (s : DiagnosticSeverity)
  : Diagnostic :=
  {| range := r; message := m; severity := s; code := None |}.

(** [TextDocument.positionAt] of the host, for the text the host hands
    out (lines separated by LF or CR LF): the line is the number of LF
    before the offset, the character the distance to the last of them. *)
Definition advance (p : Position) (c : CodeUnit) : Position :=
  if c =? 10 then {| line := S (line p); character := 0 |}
  else {| line := line p; character := S (character p) |}.

Definition positionAt (text : jsstring) (offset : nat) : Position :=
  fold_left advance (firstn offset text) {| line := 0; character := 0 |}.

(** ** Check A: the required meta keys *)

Definition requiredKeys : list jsstring :=
  [str "meta.name"; str "meta.version"; str "meta.author"].

Definition missingKey (key : jsstring) : Diagnostic :=
  {| range := newRange4 0 0 0 0;
     message := str "Missing key: " ++ key;
     severity := Information;
     code := Some (str "missing_" ++ key) |}.

Definition checkMeta (text : jsstring) : list Diagnostic :=
  flat_map (fun key => if negb (includes text key) then [missingKey key] else [])
           requiredKeys.

(** ** Check B: the register range scan *)

Definition isWordAt (c : option CodeUnit) : bool :=
  match c with
  | Some x => isWord x
  | None => false
  end.

(** [\b] between the character before a position and the one after it. *)
Definition wordBoundary (before after : option CodeUnit) : bool :=
  xorb (isWordAt before) (isWordAt after).

(** One attempt of [/\b(r\d{1,2})\b/i] at the head of [s], where [before]
    is the character that precedes it in the text: the greedy [\d{1,2}]
    takes two digits first and gives one back when the closing [\b]
    fails.  The result is capture group 1. *)
Definition matchRegisterAt (before : option CodeUnit) (s : jsstring)
  : option jsstring :=
  match s with
  | r :: d1 :: tl1 =>
      if wordBoundary before (Some r) && isR r && isDigit d1 then
        match tl1 with
        | d2 :: tl2 =>
            if isDigit d2 && wordBoundary (Some d2) (hd_error tl2)
            then Some [r; d1; d2]
            else if wordBoundary (Some d1) (Some d2) then Some [r; d1]
            else None
        | [] => if wordBoundary (Some d1) None then Some [r; d1] else None
        end
      else None
  | _ => None
  end.

(** The character before the position reached after reading [read]. *)
Definition lastOr (before : option CodeUnit) (read : jsstring)
  : option CodeUnit :=
  fold_left (fun _ c => Some c) read before.

(** The [while ((match = registerRegex.exec(text)) !== null)] loop of the
    global regex: each round searches from [lastIndex] (here
    [index], with [s] the text from there on) and leaves [lastIndex]
    behind the match.  Every round reads at least one character, so the
    length of the text is fuel enough. *)
Fixpoint execRegisters (fuel : nat) (before : option CodeUnit) (index : nat)
  (s : jsstring) : list (nat * jsstring) :=
  match fuel with
  | O => []
  | S fuel' =>
      match s with
      | [] => []
      | c :: rest =>
          match matchRegisterAt before s with
          | Some m =>
              (index, m) ::
              execRegisters fuel' (lastOr before m) (index + length m)%nat
                            (skipn (length m) s)
          | None => execRegisters fuel' (Some c) (S index) rest
          end
      end
  end.

Definition registerMatches (text : jsstring) : list (nat * jsstring) :=
  execRegisters (length text) None 0%nat text.

Fixpoint digitsPrefix (s : jsstring) : jsstring :=
  match s with
  | c :: rest => if isDigit c then c :: digitsPrefix rest else []
  | [] => []
  end.

(** [parseInt] on a string that starts with no white space, sign or
    [0x]: the value of its leading decimal digits, [None] (NaN) when it
    has none. *)
Definition parseInt (s : jsstring) : option Z :=
  match digitsPrefix s with
  | [] => None
  | ds => Some (fold_left (fun acc c => 10 * acc + Z.of_N (c - 48))%Z ds 0%Z)
  end.

(** [regNum < 0 || regNum > 15]; both comparisons are false on NaN. *)
Definition outOfRange (regNum : option Z) : bool :=
  match regNum with
  | Some n => (n <? 0)%Z || (15 <? n)%Z
  | None => false
  end.

Definition invalidRegister (text : jsstring) (index : nat) (m1 : jsstring)
  : Diagnostic :=
  newDiagnostic
    (newRange (positionAt text index) (positionAt text (index + length m1)%nat))
    (str "Invalid register: " ++ m1)
    Error.

(** The body of the loop for one match: [m1] is [match[1]] and
    [m1.substring(1)] its tail. *)
Definition checkRegisterMatch (text : jsstring) (m : nat * jsstring)
  : list Diagnostic :=
  let regNum := parseInt (tl (snd m)) in
  if outOfRange regNum then [invalidRegister text (fst m) (snd m)] else [].

Definition checkRegisters (text : jsstring) : list Diagnostic :=
  flat_map (checkRegisterMatch text) (registerMatches text).

(** ** Check C: lines, tokens and operand shapes *)

(** [text.split(/\r?\n/)]: a CR directly before an LF belongs to the
    separator. *)
Fixpoint split (s : jsstring) : list jsstring :=
  match s with
  | [] => [[]]
  | c :: rest =>
      if c =? 10 then [] :: split rest
      else
        match rest with
        | d :: rest' =>
            if (c =? 13) && (d =? 10) then [] :: split rest'
            else
              match split rest with
              | l :: ls => (c :: l) :: ls
              | [] => [[c]]
              end
        | [] => [[c]]
        end
  end.

Fixpoint trimStart (s : jsstring) : jsstring :=
  match s with
  | c :: rest => if isSpace c then trimStart rest else s
  | [] => []
  end.

Fixpoint trimEnd (s : jsstring) : jsstring :=
  match s with
  | c :: rest =>
      match trimEnd rest with
      | [] => if isSpace c then [] else [c]
      | kept => c :: kept
      end
  | [] => []
  end.

(** [String.prototype.trim] *)
Definition trim (s : jsstring) : jsstring := trimEnd (trimStart s).

(** [[^']*'] after an opening quote: the text through the next quote, and
    what follows it. *)
Fixpoint throughQuote (s : jsstring) : option (jsstring * jsstring) :=
  match s with
  | [] => None
  | c :: rest =>
      if c =? quote then Some ([c], rest)
      else
        match throughQuote rest with
        | Some (body, after) => Some (c :: body, after)
        | None => None
        end
  end.

(** First alternative, ['[^']*'], at the head of [s]. *)
Definition matchQuoted (s : jsstring) : option (jsstring * jsstring) :=
  match s with
  | c :: rest =>
      if c =? quote then
        match throughQuote rest with
        | Some (body, after) => Some (c :: body, after)
        | None => None
        end
      else None
  | [] => None
  end.

(** The greedy run of [\S] at the head of [s], and what follows it. *)
Fixpoint nonSpaceRun (s : jsstring) : jsstring * jsstring :=
  match s with
  | c :: rest =>
      if isSpace c then ([], s)
      else let (run, after) := nonSpaceRun rest in (c :: run, after)
  | [] => ([], [])
  end.

(** Second alternative, [\S+], at the head of [s]. *)
Definition matchNonSpace (s : jsstring) : option (jsstring * jsstring) :=
  match nonSpaceRun s with
  | ([], _) => None
  | (run, after) => Some (run, after)
  end.

(** One attempt of [/'[^']*'|\S+/] at the head of [s]: the alternatives
    in order. *)
Definition matchTokenAt (s : jsstring) : option (jsstring * jsstring) :=
  match matchQuoted s with
  | Some r => Some r
  | None => matchNonSpace s
  end.

(** All matches of the global regex, left to right.  A match is never
    empty, so the length of the line is fuel enough. *)
Fixpoint matchTokens (fuel : nat) (s : jsstring) : list jsstring :=
  match fuel with
  | O => []
  | S fuel' =>
      match s with
      | [] => []
      | _ :: rest =>
          match matchTokenAt s with
          | Some (tok, after) => tok :: matchTokens fuel' after
          | None => matchTokens fuel' rest
          end
      end
  end.

(** [line.match(/'[^']*'|\S+/g)]; the empty list stands for [null]. *)
Definition lineTokens (line : jsstring) : list jsstring :=
  matchTokens (length line) line.

(** [/^r\d{1,2}$/i] *)
Definition isRegisterShape (s : jsstring) : bool :=
  match s with
  | [r; d1] => isR r && isDigit d1
  | [r; d1; d2] => isR r && isDigit d1 && isDigit d2
  | _ => false
  end.

(** [/^\d+$/] *)
Definition isNumberShape (s : jsstring) : bool :=
  match s with
  | [] => false
  | _ :: _ => forallb isDigit s
  end.

(** [/^(\.|[A-Za-z_])[\w.]*$/] *)
Definition isLabelShape (s : jsstring) : bool :=
  match s with
  | c :: rest =>
      ((c =? 46) || isLetter c || (c =? 95))
      && forallb (fun x => isWord x || (x =? 46)) rest
  | [] => false
  end.

(** [/^'.*'$/]: a quote, characters other than line terminators, a
    quote. *)
Definition isStringShape (s : jsstring) : bool :=
  match s with
  | c :: rest =>
      (c =? quote) &&
      match rev rest with
      | l :: middle =>
          (l =? quote) && forallb (fun x => negb (isLineTerminator x)) middle
      | [] => false
      end
  | [] => false
  end.

(** One round of [for (const kind of expectedKinds)]. *)
Definition kindMatches (actual : jsstring) (kind : OperandKind) : bool :=
  match kind with
  | Reg => isRegisterShape actual
  | Num => isNumberShape actual
  | Label => isLabelShape actual
  | String_ => isStringShape actual
  end.

(** The value of [valid] after the loop over [expectedKinds]. *)
Definition operandValid (expectedKinds : list OperandKind) (actual : jsstring)
  : bool :=
  existsb (kindMatches actual) expectedKinds.

Definition invalidInstruction (lineNum : nat) (firstPart instruction : jsstring)
  : Diagnostic :=
  newDiagnostic
    (newRange4 lineNum 0 lineNum (length firstPart))
    (str "Invalid instruction: " ++ instruction)
    Error.

Definition wrongArity (lineNum : nat) (line instruction : jsstring)
  (signature : Signature) (args : list jsstring) : Diagnostic :=
  newDiagnostic
    (newRange4 lineNum 0 lineNum (length line))
    (str "Instruction " ++ instruction ++ str " expects "
       ++ decimal (length signature) ++ str " argument(s), got "
       ++ decimal (length args))
    Error.

Definition invalidArgument (lineNum : nat) (line instruction actual : jsstring)
  (expectedKinds : list OperandKind) : Diagnostic :=
  newDiagnostic
    (newRange4 lineNum 0 lineNum (length line))
    (str "Invalid argument '" ++ actual ++ str "' for " ++ instruction
       ++ str ". Expected: " ++ join (str " or ") (map kindName expectedKinds))
    Error.

(** The body of [for (let i = 0; i < signature.length; i++)] at index
    [i]; an index past the end of [args] reads [undefined], which the
    regexes and the template literal turn into the string "undefined". *)
Definition checkOperand (lineNum : nat) (line instruction : jsstring)
  (signature : Signature) (args : list jsstring) (i : nat) : list Diagnostic :=
  let expectedKinds := nth i signature [] in
  let actual := nth i args (str "undefined") in
  if operandValid expectedKinds actual then []
  else [invalidArgument lineNum line instruction actual expectedKinds].

Definition metaKeys : list jsstring :=
  [str "meta.name"; str "meta.version"; str "meta.author"].

(** ** The host's Unicode case mappings

    [toUpperCase] and [toLowerCase] are fixed by ECMAScript on ASCII text;
    outside ASCII they follow the Unicode tables of the engine, which stay
    a parameter here. *)
Section Extension.

Variable unicodeUpper : jsstring -> jsstring.
Variable unicodeLower : jsstring -> jsstring.

Definition toUpperCase (s : jsstring) : jsstring :=
  if forallb isAscii s then map asciiUpper s else unicodeUpper s.

Definition toLowerCase (s : jsstring) : jsstring :=
  if forallb isAscii s then map asciiLower s else unicodeLower s.

(** The body of [for (let lineNum = 0; ...)] for one element of [lines]:
    the findings it pushes. *)
Definition checkLine (lineNum : nat) (rawLine : jsstring) : list Diagnostic :=
  let line := trim rawLine in
  match line with
  | [] => []
  | _ :: _ =>
      match lineTokens line with
      | [] => []
      | firstPart :: args =>
          let instruction := toUpperCase firstPart in
          match lookup instruction with
          | None =>
              if startsWith firstPart (str "#") then []
              else if arrayIncludes metaKeys firstPart then []
              else if startsWith firstPart (str ".") then []
              else [invalidInstruction lineNum firstPart instruction]
          | Some signature =>
              if negb (length args =? length signature)%nat then
                [wrongArity lineNum line instruction signature args]
              else
                flat_map (checkOperand lineNum line instruction signature args)
                         (seq 0 (length signature))
          end
      end
  end.

Fixpoint checkLinesFrom (lineNum : nat) (lines : list jsstring)
  : list Diagnostic :=
  match lines with
  | [] => []
  | l :: rest => checkLine lineNum l ++ checkLinesFrom (S lineNum) rest
  end.

Definition checkLines (text : jsstring) : list Diagnostic :=
  checkLinesFrom 0 (split text).

(** The array [diagnostics] at the end of [updateDiagnostics]. *)
Definition computeDiagnostics (text : jsstring) : list Diagnostic :=
  checkMeta text ++ checkRegisters text ++ checkLines text.

Record TextDocument := {
  uri : jsstring;
  languageId : jsstring;
  getText : jsstring
}.

(** The diagnostic collection of the host, by document URI. *)
Definition DiagnosticCollection := jsstring -> option (list Diagnostic).

Definition collectionSet (c : DiagnosticCollection) (u : jsstring)
  (ds : list Diagnostic) : DiagnosticCollection :=
  fun u' => if eqbS u u' then Some ds else c u'.

Definition updateDiagnostics (doc : TextDocument) (c : DiagnosticCollection)
  : DiagnosticCollection :=
  if negb (eqbS (languageId doc) (str "carnival")) then c
  else collectionSet c (uri doc) (computeDiagnostics (getText doc)).

(** ** Completion *)

Inductive CompletionItemKind := Keyword.

Record CompletionItem := {
  label : jsstring;
  kind : CompletionItemKind;
  insertText : jsstring;
  detail : jsstring
}.

Definition completionItem (inst : jsstring) : CompletionItem :=
  {| label := inst;
     kind := Keyword;
     insertText := inst;
     detail := str "Carnival instruction" |}.

(** [provideCompletionItems(document, position)] *)
Definition provideCompletionItems (document : TextDocument) (position : Position)
  : list CompletionItem :=
  map completionItem (map toLowerCase mnemonics).

End Extension.

(** The case mapping of a run on ASCII text, which never consults the
    Unicode tables. *)
Definition asciiOnly : jsstring -> jsstring := fun s => s.

(** ** Quick fix *)

Inductive CodeActionKind := QuickFix.

(** One [fix.edit.insert(uri, position, newText)] of a workspace edit. *)
Record TextInsert := {
  insertUri : jsstring;
  insertAt : Position;
  newText : jsstring
}.

Record CodeAction := {
  title : jsstring;
  actionKind : CodeActionKind;
  edit : list TextInsert;
  diagnostics : list Diagnostic
}.

(** [String.prototype.replace] with a string pattern: the first
    occurrence only.  The replacement of the source is the empty string,
    which holds no [$] pattern. *)
Fixpoint replaceFirst (s pattern replacement : jsstring) : jsstring :=
  if startsWith s pattern then replacement ++ skipn (length pattern) s
  else
    match s with
    | [] => []
    | c :: rest => c :: replaceFirst rest pattern replacement
    end.

(** [const defaults: Record<string, string>] *)
Definition defaults : list (jsstring * jsstring) :=
  [ (str "meta.name", str "Program");
    (str "meta.version", str "0.1");
    (str "meta.author", str "Me") ].

Fixpoint lookupDefault (table : list (jsstring * jsstring)) (key : jsstring)
  : option jsstring :=
  match table with
  | [] => None
  | (k, v) :: rest => if eqbS k key then Some v else lookupDefault rest key
  end.

(** [defaults[key]] inside the template literal: a key the table lacks
    reads [undefined] and prints as such.  The key starts with [meta], so
    it names no member inherited from [Object.prototype]. *)
Definition defaultText (key : jsstring) : jsstring :=
  match lookupDefault defaults key with
  | Some v => v
  | None => str "undefined"
  end.

(** The body of [for (const diagnostic of context.diagnostics)]; a
    [code] that is no string is [None] here. *)
Definition quickFixFor (document : TextDocument) (diagnostic : Diagnostic)
  : list CodeAction :=
  match code diagnostic with
  | Some c =>
      if startsWith c (str "missing_meta") then
        let key := replaceFirst c (str "missing_") [] in
        [ {| title := str "Insert " ++ key;
             actionKind := QuickFix;
             edit := [ {| insertUri := uri document;
                          insertAt := {| line := 0; character := 0 |};
                          newText := key ++ str " '" ++ defaultText key
                                       ++ str "'" ++ [10] |} ];
             diagnostics := [diagnostic] |} ]
      else []
  | None => []
  end.

(** [provideCodeActions(document, range, context, token)], with
    [context.diagnostics] for [context]; the cancellation token is never
    read. *)
Definition provideCodeActions (document : TextDocument) (range : Range)
  (contextDiagnostics : list Diagnostic) : list CodeAction :=
  flat_map (quickFixFor document) contextDiagnostics.

(** The text of a document after an insertion at [Position(0, 0)]. *)
Definition applyAtStart (e : TextInsert) (text : jsstring) : jsstring :=
  newText e ++ text.

(** ** Vocabulary of the statements *)

(** [key] occurs in [text] as a substring. *)
Definition occursIn (key text : jsstring) : Prop :=
  exists pre post, text = pre ++ key ++ post.

(** The three kinds of finding of the per-line check, told apart by the
    fixed head of their message. *)
Definition isArityFinding (d : Diagnostic) : bool :=
  startsWith (message d) (str "Instruction ").

Definition isOperandFinding (d : Diagnostic) : bool :=
  startsWith (message d) (str "Invalid argument '").

(** The first token opens a comment, a directive or label, or is one of
    the meta keys: the lines the validator passes over in silence. *)
Definition isSilent (firstPart : jsstring) : Prop :=
  startsWith firstPart (str "#") = true \/
  startsWith firstPart (str ".") = true \/
  In firstPart metaKeys.

Definition isInformation (d : Diagnostic) : bool :=
  match severity d with
  | Information => true
  | _ => false
  end.

(** The range from column 0 to column [len] of line [lineNum]. *)
Definition lineRange (lineNum len : nat) : Range :=
  {| start := {| line := lineNum; character := 0 |};
     end_ := {| line := lineNum; character := len |} |}.

(** [w] stands in [s] at offset [j] with no word character directly
    before it or after it; [before] is the character that precedes [s]. *)
Definition wholeWordFrom (before : option CodeUnit) (s : jsstring) (j : nat)
  (w : jsstring) : Prop :=
  exists pre post,
    s = pre ++ w ++ post /\ length pre = j /\
    isWordAt (lastOr before pre) = false /\ isWordAt (hd_error post) = false.

(** A whole-word occurrence of [w] at offset [i] of the document. *)
Definition wholeWordAt (text : jsstring) (i : nat) (w : jsstring) : Prop :=
  wholeWordFrom None text i w.

(** The number a register-shaped token carries after its letter. *)
Definition digitValue (c : CodeUnit) : Z := Z.of_N (c - 48).

Definition registerNumber (w : jsstring) : Z :=
  match w with
  | [_; d1] => digitValue d1
  | [_; d1; d2] => 10 * digitValue d1 + digitValue d2
  | _ => 0
  end.

(** The range of [len] characters that starts at position [p]. *)
Definition spanFrom (p : Position) (len : nat) : Range :=
  {| start := p;
     end_ := {| line := line p; character := character p + len |} |}.

(** A finding moved down by [k] lines. *)
Definition shiftPosition (k : nat) (p : Position) : Position :=
  {| line := line p + k; character := character p |}.

Definition shiftRange (k : nat) (r : Range) : Range :=
  {| start := shiftPosition k (start r); end_ := shiftPosition k (end_ r) |}.

Definition shiftLines (k : nat) (d : Diagnostic) : Diagnostic :=
  {| range := shiftRange k (range d);
     message := message d;
     severity := severity d;
     code := code d |}.

(** The text with every CR LF pair turned into LF. *)
Fixpoint lfOnly (s : jsstring) : jsstring :=
  match s with
  | [] => []
  | c :: rest =>
      match rest with
      | d :: _ => if (c =? 13) && (d =? 10) then lfOnly rest else c :: lfOnly rest
      | [] => [c]
      end
  end.

(** The line read back from its tokens and the gaps around them: one gap
    before each token and one after the last. *)
Fixpoint interleave (gaps toks : list jsstring) : jsstring :=
  match gaps, toks with
  | g :: gaps', t :: toks' => g ++ t ++ interleave gaps' toks'
  | g :: _, [] => g
  | [], _ => []
  end.

(** A token of the second alternative: no white space inside. *)
Definition isBareToken (t : jsstring) : bool :=
  forallb (fun c => negb (isSpace c)) t.

(** A token of the first alternative: a quote, no quote inside, a quote. *)
Definition isQuotedToken (t : jsstring) : bool :=
  match t with
  | c :: rest =>
      (c =? quote) &&
      match rev rest with
      | l :: middle => (l =? quote) && forallb (fun x => negb (x =? quote)) middle
      | [] => false
      end
  | [] => false
  end.

(** [[A-Z]] *)
Definition isUpperLetter (c : CodeUnit) : bool := (65 <=? c) && (c <=? 90).

(** What [split] keeps of a text, stated together so that one induction
    on the length serves. *)
Definition splitFacts (text : jsstring) : Prop :=
  split text <> [] /\
  Forall (fun l => ~ In 10 l) (split text) /\
  length (split text) = S (count_occ N.eq_dec text 10) /\
  join [10] (split text) = lfOnly text /\
  (forall l c, In l (split text) -> In c l -> In c text).

(** The text a quick fix inserts for [key]. *)
Definition fixText (key : jsstring) : jsstring :=
  key ++ str " '" ++ defaultText key ++ str "'" ++ [10].

(** The action offered for the missing-key notice of [key]. *)
Definition insertKeyAction (document : TextDocument) (key : jsstring)
  : CodeAction :=
  {| title := str "Insert " ++ key;
     actionKind := QuickFix;
     edit := [ {| insertUri := uri document;
                  insertAt := {| line := 0; character := 0 |};
                  newText := fixText key |} ];
     diagnostics := [missingKey key] |}.

(** The document after the edits of [actions], applied one action after
    the other in the order given. *)
Definition applyActions (actions : list CodeAction) (text : jsstring)
  : jsstring :=
  fold_left (fun t a => fold_left (fun t' e => applyAtStart e t') (edit a) t)
            actions text.

(** No [r] or [R] of the text is directly followed by a digit. *)
Fixpoint registerFree (s : jsstring) : bool :=
  match s with
  | c :: rest =>
      match rest with
      | d :: _ => negb (isR c && isDigit d) && registerFree rest
      | [] => true
      end
  | [] => true
  end.

(** A match of the register scan moved right by [k] characters. *)
Definition shiftMatch (k : nat) (m : nat * jsstring) : nat * jsstring :=
  ((fst m + k)%nat, snd m).

(** The number of white-space characters a line starts with. *)
Fixpoint indent (s : jsstring) : nat :=
  match s with
  | c :: rest => if isSpace c then S (indent rest) else 0%nat
  | [] => 0%nat
  end.

(** The range of [len] characters from column [col] of line [lineNum]. *)
Definition columnRange (lineNum col len : nat) : Range :=
  {| start := {| line := lineNum; character := col |};
     end_ := {| line := lineNum; character := col + len |} |}.

(** * Properties *)

(** ** Strings *)

Lemma eqbS_eq (a b : jsstring) : eqbS a b = true <-> a = b.
Proof.
  revert b; induction a as [|x a IH]; intros [|y b]; simpl;
    try (split; [discriminate | discriminate]); try tauto.
  rewrite andb_true_iff, N.eqb_eq, IH.
  split; [intros [-> ->]; reflexivity | intros E; inversion E; auto].
Qed.

Lemma eqbS_refl (a : jsstring) : eqbS a a = true.
Proof. apply eqbS_eq; reflexivity. Qed.

Lemma arrayIncludes_In (xs : list jsstring) (x : jsstring) :
  arrayIncludes xs x = true <-> In x xs.
Proof.
  unfold arrayIncludes; rewrite existsb_exists; split.
  - intros (y & Hy & E); apply eqbS_eq in E; subst; assumption.
  - intros H; exists x; split; [assumption | apply eqbS_refl].
Qed.

Lemma startsWith_prefix (s p : jsstring) :
  startsWith s p = true <-> exists post, s = p ++ post.
Proof.
  revert s; induction p as [|x p IH]; intros s; simpl.
  - split; [intros _; exists s; reflexivity | reflexivity].
  - destruct s as [|c s].
    + split; [discriminate | intros (post & E); discriminate].
    + rewrite andb_true_iff, N.eqb_eq, IH; split.
      * intros (-> & post & ->); exists post; reflexivity.
      * intros (post & E); inversion E; subst; split; [reflexivity | eauto].
Qed.

Lemma includes_occursIn (text key : jsstring) :
  includes text key = true <-> occursIn key text.
Proof.
  induction text as [|c text IH].
  - simpl; rewrite orb_false_r, startsWith_prefix; split.
    + intros (post & E); exists [], post; exact E.
    + intros (pre & post & E); destruct pre as [|x pre]; [|discriminate].
      exists post; exact E.
  - cbn [includes]; rewrite orb_true_iff, startsWith_prefix, IH; split.
    + intros [(post & E) | (pre & post & E)].
      * exists [], post; exact E.
      * exists (c :: pre), post; rewrite E; reflexivity.
    + intros (pre & post & E); destruct pre as [|x pre].
      * left; exists post; exact E.
      * right; inversion E; subst; exists pre, post; reflexivity.
Qed.

(** ** The catalog *)

(** C2, as the code has it: the instruction catalog holds exactly 25
    mnemonic entries, all distinct. *)
Theorem catalog_has_25_entries :
  length INSTRUCTIONS = 25%nat /\ length mnemonics = 25%nat /\ NoDup mnemonics.
Proof.
  split; [reflexivity | split; [reflexivity |]].
  unfold mnemonics; cbn -[str].
  repeat (constructor; [cbn; intuition discriminate |]).
  constructor.
Qed.

(** C2, as stated, fails: the catalog does not hold exactly 23 entries. *)
Lemma catalog_not_23_entries : length mnemonics <> 23%nat.
Proof. discriminate. Qed.

(** ** Trimming and tokens *)

Lemma trimStart_head (s : jsstring) :
  trimStart s = [] \/
  exists c rest, trimStart s = c :: rest /\ isSpace c = false.
Proof.
  induction s as [|c s IH]; simpl; [left; reflexivity |].
  destruct (isSpace c) eqn:E; [exact IH | right; eauto].
Qed.

Lemma trimEnd_head (c : CodeUnit) (rest : jsstring) :
  isSpace c = false -> exists kept, trimEnd (c :: rest) = c :: kept.
Proof.
  intros E; simpl; destruct (trimEnd rest); [rewrite E |]; eauto.
Qed.

Lemma trim_head (s : jsstring) :
  trim s = [] \/ exists c rest, trim s = c :: rest /\ isSpace c = false.
Proof.
  unfold trim; destruct (trimStart_head s) as [-> | (c & rest & -> & E)].
  - left; reflexivity.
  - right; destruct (trimEnd_head c rest E) as (kept & ->); eauto.
Qed.

Lemma trimStart_split (s : jsstring) :
  exists pre, s = pre ++ trimStart s /\ forallb isSpace pre = true.
Proof.
  induction s as [|c s (pre & E & F)]; simpl; [exists []; auto |].
  destruct (isSpace c) eqn:Sp.
  - exists (c :: pre); simpl; rewrite Sp, F, <- E; auto.
  - exists []; auto.
Qed.

Lemma trimEnd_split (s : jsstring) :
  exists post, s = trimEnd s ++ post /\ forallb isSpace post = true.
Proof.
  induction s as [|c s (post & E & F)]; simpl; [exists []; auto |].
  destruct (trimEnd s) as [|k kept] eqn:T.
  - simpl in E; subst post; destruct (isSpace c) eqn:Sp.
    + exists (c :: s); simpl; rewrite Sp, F; auto.
    + exists s; auto.
  - exists post; simpl; rewrite E at 1; auto.
Qed.

Lemma firstn_prefix (a b : jsstring) : firstn (length a) (a ++ b) = a.
Proof. induction a as [|x a IH]; simpl; [reflexivity | f_equal; exact IH]. Qed.

Lemma indent_skipn (s : jsstring) : skipn (indent s) s = trimStart s.
Proof.
  induction s as [|c s IH]; simpl; [reflexivity |].
  destruct (isSpace c); [exact IH | reflexivity].
Qed.

(** The trimmed line stands in the line at the columns that follow the
    indent. *)
Lemma trimmed_in_place (s head after : jsstring) :
  trim s = head ++ after ->
  firstn (length head) (skipn (indent s) s) = head.
Proof.
  intros E; rewrite indent_skipn.
  destruct (trimEnd_split (trimStart s)) as (post & E' & _).
  rewrite E'; fold (trim s); rewrite E, <- app_assoc; apply firstn_prefix.
Qed.

Lemma lineRange_columnRange (lineNum col len : nat) :
  lineRange lineNum len = columnRange lineNum col len <-> col = 0%nat.
Proof.
  unfold lineRange, columnRange; split.
  - intros H; inversion H; reflexivity.
  - intros ->; reflexivity.
Qed.

Lemma throughQuote_app (s body after : jsstring) :
  throughQuote s = Some (body, after) -> s = body ++ after.
Proof.
  revert body after; induction s as [|c s IH]; simpl; intros body after H;
    [discriminate |].
  destruct (c =? quote).
  - inversion H; reflexivity.
  - destruct (throughQuote s) as [[b a]|]; [|discriminate].
    inversion H; subst; simpl; f_equal; apply IH; reflexivity.
Qed.

Lemma nonSpaceRun_app (s : jsstring) :
  s = fst (nonSpaceRun s) ++ snd (nonSpaceRun s).
Proof.
  induction s as [|c s IH]; simpl; [reflexivity |].
  destruct (isSpace c); [reflexivity |].
  destruct (nonSpaceRun s) as [run after]; simpl in *; f_equal; exact IH.
Qed.

Lemma matchTokenAt_app (s tok after : jsstring) :
  matchTokenAt s = Some (tok, after) -> s = tok ++ after /\ tok <> [].
Proof.
  unfold matchTokenAt, matchQuoted, matchNonSpace.
  destruct s as [|c s].
  - simpl; discriminate.
  - destruct (c =? quote);
      [destruct (throughQuote s) as [[b a]|] eqn:Q |].
    + intros H; inversion H; subst; split; [|discriminate].
      simpl; f_equal; apply throughQuote_app; exact Q.
    + pose proof (nonSpaceRun_app (c :: s)) as A.
      destruct (nonSpaceRun (c :: s)) as [[|x run] aft]; [discriminate |].
      intros H; inversion H; subst; split; [exact A | discriminate].
    + pose proof (nonSpaceRun_app (c :: s)) as A.
      destruct (nonSpaceRun (c :: s)) as [[|x run] aft]; [discriminate |].
      intros H; inversion H; subst; split; [exact A | discriminate].
Qed.

Lemma matchTokenAt_nonspace (c : CodeUnit) (rest : jsstring) :
  isSpace c = false -> exists tok after, matchTokenAt (c :: rest) = Some (tok, after).
Proof.
  intros E; unfold matchTokenAt.
  destruct (matchQuoted (c :: rest)) as [[t a]|]; [eauto |].
  unfold matchNonSpace; simpl; rewrite E.
  destruct (nonSpaceRun rest) as [run after]; eauto.
Qed.

(** The first token of a trimmed, non-empty line starts at column 0 of
    the trimmed line. *)
Lemma lineTokens_first (rawLine : jsstring) :
  trim rawLine <> [] ->
  exists firstPart args after,
    lineTokens (trim rawLine) = firstPart :: args /\
    trim rawLine = firstPart ++ after /\ firstPart <> [].
Proof.
  intros NE; destruct (trim_head rawLine) as [E | (c & rest & E & Sp)];
    [contradiction |].
  rewrite E; unfold lineTokens; cbn [length matchTokens].
  destruct (matchTokenAt_nonspace c rest Sp) as (tok & after & M).
  rewrite M; apply matchTokenAt_app in M; destruct M as [A N].
  exists tok, (matchTokens (length rest) after), after; auto.
Qed.

(** ** The shape of [checkLine] *)

Lemma newRange4_line (lineNum len : nat) :
  newRange4 lineNum 0 lineNum len = lineRange lineNum len.
Proof.
  unfold newRange4, newRange, isBefore, lineRange; simpl.
  rewrite Nat.ltb_irrefl, Nat.eqb_refl; destruct len; reflexivity.
Qed.

Lemma checkLine_unknown (up : jsstring -> jsstring) (lineNum : nat)
  (rawLine firstPart : jsstring) (args : list jsstring) :
  lineTokens (trim rawLine) = firstPart :: args ->
  lookup (toUpperCase up firstPart) = None ->
  checkLine up lineNum rawLine =
    if startsWith firstPart (str "#") then []
    else if arrayIncludes metaKeys firstPart then []
    else if startsWith firstPart (str ".") then []
    else [invalidInstruction lineNum firstPart (toUpperCase up firstPart)].
Proof.
  intros T L; unfold checkLine.
  destruct (trim rawLine) as [|c l] eqn:E; [discriminate |].
  rewrite T, L; reflexivity.
Qed.

Lemma checkLine_known (up : jsstring -> jsstring) (lineNum : nat)
  (rawLine firstPart : jsstring) (args : list jsstring) (signature : Signature) :
  lineTokens (trim rawLine) = firstPart :: args ->
  lookup (toUpperCase up firstPart) = Some signature ->
  checkLine up lineNum rawLine =
    if negb (length args =? length signature)%nat then
      [wrongArity lineNum (trim rawLine) (toUpperCase up firstPart) signature args]
    else
      flat_map (checkOperand lineNum (trim rawLine) (toUpperCase up firstPart)
                             signature args)
               (seq 0 (length signature)).
Proof.
  intros T L; unfold checkLine.
  destruct (trim rawLine) as [|c l] eqn:E; [discriminate |].
  rewrite T, L; reflexivity.
Qed.

Lemma checkLine_matching (up : jsstring -> jsstring) (lineNum : nat)
  (rawLine firstPart : jsstring) (args : list jsstring) (signature : Signature) :
  lineTokens (trim rawLine) = firstPart :: args ->
  lookup (toUpperCase up firstPart) = Some signature ->
  length args = length signature ->
  checkLine up lineNum rawLine =
    flat_map (checkOperand lineNum (trim rawLine) (toUpperCase up firstPart)
                           signature args)
             (seq 0 (length signature)).
Proof.
  intros T L A; rewrite (checkLine_known up lineNum rawLine firstPart args signature T L).
  rewrite A, Nat.eqb_refl; reflexivity.
Qed.

Lemma operandValid_false (kinds : list OperandKind) (actual : jsstring) :
  operandValid kinds actual = false <->
  forall k, In k kinds -> kindMatches actual k = false.
Proof.
  unfold operandValid; induction kinds as [|k ks IH]; simpl.
  - split; [intros _ k [] | reflexivity].
  - rewrite orb_false_iff, IH; split.
    + intros [H1 H2] k' [<- | I]; auto.
    + intros H; split; [apply H; left; reflexivity | intros k' I; apply H; right; exact I].
Qed.

Lemma flat_map_length_filter {A B : Type} (f : A -> list B) (p : A -> bool)
  (xs : list A) :
  (forall x, In x xs -> length (f x) = if p x then 1%nat else 0%nat) ->
  length (flat_map f xs) = length (filter p xs).
Proof.
  induction xs as [|x xs IH]; simpl; intros H; [reflexivity |].
  rewrite length_app, IH by (intros y I; apply H; right; exact I).
  rewrite (H x (or_introl eq_refl)); destruct (p x); reflexivity.
Qed.

(** ** Operand shapes *)

Lemma isR_isLetter (c : CodeUnit) : isR c = true -> isLetter c = true.
Proof.
  unfold isR, isLetter; rewrite orb_true_iff, !N.eqb_eq.
  intros [-> | ->]; reflexivity.
Qed.

Lemma isDigit_isWord (c : CodeUnit) : isDigit c = true -> isWord c = true.
Proof. unfold isWord; intros ->; rewrite orb_true_r; reflexivity. Qed.

Lemma isR_isWord (c : CodeUnit) : isR c = true -> isWord c = true.
Proof. unfold isWord; intros H; rewrite (isR_isLetter c H); reflexivity. Qed.

Lemma register_is_label (s : jsstring) :
  isRegisterShape s = true -> isLabelShape s = true.
Proof.
  destruct s as [|r [|d1 [|d2 [|x s]]]]; simpl; try discriminate.
  - intros H; apply andb_prop in H; destruct H as [R D1].
    rewrite (isR_isLetter r R), (isDigit_isWord d1 D1), !orb_true_r; reflexivity.
  - intros H; apply andb_prop in H; destruct H as [H D2].
    apply andb_prop in H; destruct H as [R D1].
    rewrite (isR_isLetter r R), (isDigit_isWord d1 D1), (isDigit_isWord d2 D2),
      !orb_true_r; reflexivity.
Qed.

Lemma operandValid_In (kinds : list OperandKind) (actual : jsstring)
  (k : OperandKind) :
  In k kinds -> kindMatches actual k = true -> operandValid kinds actual = true.
Proof.
  intros I M; unfold operandValid; apply existsb_exists; exists k; auto.
Qed.

(** ** The claims on the per-line check *)

(** C1, as the code has it: MOV takes a Register or Number first and a
    Register second, so a document made of the line [MOV r1 5] gets, after
    the three missing-key notices, exactly one operand finding, for the
    operand [5]; with the operands in signature order, [MOV 5 r1], the
    line yields no finding. *)
Theorem mov_r1_5_findings (up : jsstring -> jsstring) :
  lookup (str "MOV") = Some [[Reg; Num]; [Reg]] /\
  computeDiagnostics up (str "MOV r1 5") =
    [ missingKey (str "meta.name"); missingKey (str "meta.version");
      missingKey (str "meta.author");
      {| range := lineRange 0 8;
         message := str "Invalid argument '5' for MOV. Expected: Reg";
         severity := Error;
         code := None |} ] /\
  checkLines up (str "MOV r1 5") =
    [ invalidArgument 0 (str "MOV r1 5") (str "MOV") (str "5") [Reg] ] /\
  checkLines up (str "MOV 5 r1") = [].
Proof. repeat split; vm_compute; reflexivity. Qed.

(** C1, as stated, fails: the document [MOV r1 5] does not validate with
    0 findings, and the per-line check alone already reports the line. *)
Lemma mov_r1_5_not_clean :
  computeDiagnostics asciiOnly (str "MOV r1 5") <> [] /\
  checkLines asciiOnly (str "MOV r1 5") <> [].
Proof. split; vm_compute; discriminate. Qed.

(** C3: on a line whose operand count matches its signature, an operand
    of register shape in a slot that accepts Register yields no finding
    for that slot, whatever its number; [r99] passes in the Register
    slots of MOV while the range scan reports it. *)
Theorem register_slot_checks_shape_only (up : jsstring -> jsstring) :
  (forall (lineNum : nat) (rawLine firstPart : jsstring) (args : list jsstring)
          (signature : Signature) (i : nat),
      lineTokens (trim rawLine) = firstPart :: args ->
      lookup (toUpperCase up firstPart) = Some signature ->
      length args = length signature ->
      (i < length signature)%nat ->
      In Reg (nth i signature []) ->
      isRegisterShape (nth i args (str "undefined")) = true ->
      checkLine up lineNum rawLine =
        flat_map (checkOperand lineNum (trim rawLine) (toUpperCase up firstPart)
                               signature args)
                 (seq 0 (length signature)) /\
      checkOperand lineNum (trim rawLine) (toUpperCase up firstPart)
                   signature args i = []) /\
  parseInt (str "99") = Some 99%Z /\
  checkLines up (str "MOV r99 r1") = [] /\
  checkRegisters (str "MOV r99 r1") =
    [ invalidRegister (str "MOV r99 r1") 4 (str "r99") ].
Proof.
  split; [| repeat split; vm_compute; reflexivity].
  intros lineNum rawLine firstPart args signature i T L A Hi HR HS; split.
  - apply checkLine_matching; assumption.
  - unfold checkOperand.
    rewrite (operandValid_In _ _ Reg HR HS); reflexivity.
Qed.

Lemma register_slot_checks_shape_only_witness :
  checkOperand 3 (trim (str "  pop R42 ")) (toUpperCase asciiOnly (str "pop"))
               [[Reg]] [str "R42"] 0 = [].
Proof.
  apply (proj1 (register_slot_checks_shape_only asciiOnly)
               3%nat (str "  pop R42 ") (str "pop") [str "R42"] [[Reg]] 0%nat).
  - vm_compute; reflexivity.
  - vm_compute; reflexivity.
  - reflexivity.
  - simpl; lia.
  - simpl; left; reflexivity.
  - vm_compute; reflexivity.
Defined.

Lemma checkLine_cases (up : jsstring -> jsstring) (lineNum : nat)
  (rawLine : jsstring) :
  checkLine up lineNum rawLine = [] \/
  (exists firstPart instruction,
      checkLine up lineNum rawLine =
        [invalidInstruction lineNum firstPart instruction]) \/
  (exists line instruction signature args,
      checkLine up lineNum rawLine =
        [wrongArity lineNum line instruction signature args]) \/
  (exists line instruction signature args,
      checkLine up lineNum rawLine =
        flat_map (checkOperand lineNum line instruction signature args)
                 (seq 0 (length signature))).
Proof.
  unfold checkLine.
  destruct (trim rawLine) as [|c l]; [left; reflexivity |].
  destruct (lineTokens (c :: l)) as [|firstPart args]; [left; reflexivity |].
  destruct (lookup (toUpperCase up firstPart)) as [signature|].
  - destruct (negb (length args =? length signature)%nat).
    + right; right; left; eauto.
    + right; right; right; eauto.
  - destruct (startsWith firstPart (str "#")); [left; reflexivity |].
    destruct (arrayIncludes metaKeys firstPart); [left; reflexivity |].
    destruct (startsWith firstPart (str ".")); [left; reflexivity |].
    right; left; eauto.
Qed.

Lemma checkOperand_In (lineNum : nat) (line instruction : jsstring)
  (signature : Signature) (args : list jsstring) (i : nat) (d : Diagnostic) :
  In d (checkOperand lineNum line instruction signature args i) ->
  d = invalidArgument lineNum line instruction (nth i args (str "undefined"))
                      (nth i signature []).
Proof.
  unfold checkOperand.
  destruct (operandValid _ _); simpl; [intros [] | intros [<- | []]; reflexivity].
Qed.

Lemma wrongArity_kind (lineNum : nat) (line instruction : jsstring)
  (signature : Signature) (args : list jsstring) :
  isArityFinding (wrongArity lineNum line instruction signature args) = true /\
  isOperandFinding (wrongArity lineNum line instruction signature args) = false.
Proof. split; reflexivity. Qed.

Lemma invalidArgument_kind (lineNum : nat) (line instruction actual : jsstring)
  (kinds : list OperandKind) :
  isArityFinding (invalidArgument lineNum line instruction actual kinds) = false /\
  isOperandFinding (invalidArgument lineNum line instruction actual kinds) = true.
Proof. split; reflexivity. Qed.

Lemma invalidInstruction_kind (lineNum : nat) (firstPart instruction : jsstring) :
  isArityFinding (invalidInstruction lineNum firstPart instruction) = false /\
  isOperandFinding (invalidInstruction lineNum firstPart instruction) = false.
Proof. split; reflexivity. Qed.

(** C4: a recognized mnemonic with the wrong number of operands yields
    exactly one Error for its line, giving the expected and the actual
    count, and no operand finding; no line carries both an arity finding
    and an operand finding; [MOV 5] yields the one Error that MOV
    expects 2 argument(s), got 1.  The range of the Error runs from
    column 0 over the length of the trimmed line, while the trimmed line
    stands at the columns after the indent: the range is the span of the
    trimmed line exactly when the line starts with no white space, and
    on [  MOV 5] it covers columns 0 to 5 where the text is at 2 to 7. *)
Theorem arity_mismatch_single_error (up : jsstring -> jsstring) :
  (forall (lineNum : nat) (rawLine firstPart : jsstring) (args : list jsstring)
          (signature : Signature),
      lineTokens (trim rawLine) = firstPart :: args ->
      lookup (toUpperCase up firstPart) = Some signature ->
      length args <> length signature ->
      checkLine up lineNum rawLine =
        [ {| range := lineRange lineNum (length (trim rawLine));
             message := str "Instruction " ++ toUpperCase up firstPart
                          ++ str " expects " ++ decimal (length signature)
                          ++ str " argument(s), got " ++ decimal (length args);
             severity := Error;
             code := None |} ] /\
      existsb isOperandFinding (checkLine up lineNum rawLine) = false /\
      firstn (length (trim rawLine)) (skipn (indent rawLine) rawLine) =
        trim rawLine /\
      (lineRange lineNum (length (trim rawLine)) =
         columnRange lineNum (indent rawLine) (length (trim rawLine))
       <-> indent rawLine = 0%nat)) /\
  (forall (lineNum : nat) (rawLine : jsstring) (d1 d2 : Diagnostic),
      In d1 (checkLine up lineNum rawLine) ->
      In d2 (checkLine up lineNum rawLine) ->
      isArityFinding d1 = true -> isOperandFinding d2 = true -> False) /\
  checkLines up (str "MOV 5") =
    [ {| range := lineRange 0 5;
         message := str "Instruction MOV expects 2 argument(s), got 1";
         severity := Error;
         code := None |} ] /\
  (checkLines up (str "  MOV 5") =
     [ {| range := columnRange 0 0 5;
          message := str "Instruction MOV expects 2 argument(s), got 1";
          severity := Error;
          code := None |} ] /\
   trim (str "  MOV 5") = str "MOV 5" /\
   skipn 2 (str "  MOV 5") = str "MOV 5" /\
   columnRange 0 0 5 <> columnRange 0 2 5).
Proof.
  split; [| split; [| split; [vm_compute; reflexivity |]]].
  - intros lineNum rawLine firstPart args signature T L A.
    rewrite (checkLine_known up lineNum rawLine firstPart args signature T L).
    apply Nat.eqb_neq in A; rewrite A; cbn [negb].
    unfold wrongArity, newDiagnostic; rewrite newRange4_line.
    split; [reflexivity | split; [reflexivity | split]].
    + apply (trimmed_in_place rawLine (trim rawLine) []); symmetry; apply app_nil_r.
    + apply lineRange_columnRange.
  - intros lineNum rawLine d1 d2 I1 I2 K1 K2.
    destruct (checkLine_cases up lineNum rawLine)
      as [E | [(fp & ins & E) | [(l & ins & sg & ar & E) | (l & ins & sg & ar & E)]]];
      rewrite E in I1, I2.
    + destruct I1.
    + destruct I1 as [<- | []].
      rewrite (proj1 (invalidInstruction_kind _ _ _)) in K1; discriminate.
    + destruct I2 as [<- | []].
      rewrite (proj2 (wrongArity_kind _ _ _ _ _)) in K2; discriminate.
    + apply in_flat_map in I1; destruct I1 as (i & _ & I1).
      apply checkOperand_In in I1; subst d1.
      rewrite (proj1 (invalidArgument_kind _ _ _ _ _)) in K1; discriminate.
  - repeat split; try (vm_compute; reflexivity).
    vm_compute; discriminate.
Qed.

Lemma arity_mismatch_single_error_witness :
  checkLine asciiOnly 7 (str " hlt r1") =
    [ {| range := lineRange 7 (length (trim (str " hlt r1")));
         message := str "Instruction " ++ toUpperCase asciiOnly (str "hlt")
                      ++ str " expects " ++ decimal (length (@nil (list OperandKind)))
                      ++ str " argument(s), got " ++ decimal (length [str "r1"]);
         severity := Error;
         code := None |} ] /\
  existsb isOperandFinding (checkLine asciiOnly 7 (str " hlt r1")) = false /\
  firstn (length (trim (str " hlt r1"))) (skipn (indent (str " hlt r1")) (str " hlt r1")) =
    trim (str " hlt r1") /\
  (lineRange 7 (length (trim (str " hlt r1"))) =
     columnRange 7 (indent (str " hlt r1")) (length (trim (str " hlt r1")))
   <-> indent (str " hlt r1") = 0%nat).
Proof.
  apply (proj1 (arity_mismatch_single_error asciiOnly)
               7%nat (str " hlt r1") (str "hlt") [str "r1"] []).
  - vm_compute; reflexivity.
  - vm_compute; reflexivity.
  - simpl; discriminate.
Defined.

(** C5: on a line with a recognized mnemonic and the right number of
    operands, the findings are those of the slots taken one by one: a
    slot whose operand matches none of its kinds gives exactly one Error
    naming the operand and the expected kinds, a slot whose operand
    matches one gives none, and the line has as many findings as it has
    slots of the first sort; [ADD r1 r2 99] yields the one Error for
    [99]. *)
Theorem operand_findings_per_slot (up : jsstring -> jsstring) :
  (forall (lineNum : nat) (rawLine firstPart : jsstring) (args : list jsstring)
          (signature : Signature),
      lineTokens (trim rawLine) = firstPart :: args ->
      lookup (toUpperCase up firstPart) = Some signature ->
      length args = length signature ->
      let line := trim rawLine in
      let instruction := toUpperCase up firstPart in
      let slot := checkOperand lineNum line instruction signature args in
      let rejected i :=
        negb (operandValid (nth i signature []) (nth i args (str "undefined"))) in
      checkLine up lineNum rawLine = flat_map slot (seq 0 (length signature)) /\
      length (checkLine up lineNum rawLine) =
        length (filter rejected (seq 0 (length signature))) /\
      forall i, (i < length signature)%nat ->
        let kinds := nth i signature [] in
        let actual := nth i args (str "undefined") in
        ((forall k, In k kinds -> kindMatches actual k = false) ->
         slot i =
           [ {| range := lineRange lineNum (length line);
                message := str "Invalid argument '" ++ actual ++ str "' for "
                             ++ instruction ++ str ". Expected: "
                             ++ join (str " or ") (map kindName kinds);
                severity := Error;
                code := None |} ]) /\
        ((exists k, In k kinds /\ kindMatches actual k = true) -> slot i = [])) /\
  checkLines up (str "ADD r1 r2 99") =
    [ {| range := lineRange 0 12;
         message := str "Invalid argument '99' for ADD. Expected: Reg";
         severity := Error;
         code := None |} ] /\
  map message (checkLines up (str "BRZ x 'y'")) =
    [ str "Invalid argument 'x' for BRZ. Expected: Reg or Num";
      str "Invalid argument ''y'' for BRZ. Expected: Num or Label" ].
Proof.
  split; [| split; vm_compute; reflexivity].
  intros lineNum rawLine firstPart args signature T L A line instruction slot rejected.
  assert (E : checkLine up lineNum rawLine = flat_map slot (seq 0 (length signature)))
    by (apply checkLine_matching; assumption).
  split; [exact E | split].
  - rewrite E; apply flat_map_length_filter; intros i _.
    unfold slot, rejected, checkOperand.
    destruct (operandValid _ _); reflexivity.
  - intros i Hi kinds actual; split.
    + intros None_; apply operandValid_false in None_.
      unfold slot, checkOperand; fold kinds actual; rewrite None_.
      unfold invalidArgument, newDiagnostic; rewrite newRange4_line; reflexivity.
    + intros (k & I & M); unfold slot, checkOperand; fold kinds actual.
      rewrite (operandValid_In kinds actual k I M); reflexivity.
Qed.

Lemma operand_findings_per_slot_witness :
  length (checkLine asciiOnly 2 (str "out r1 r2")) =
  length (filter (fun i => negb (operandValid (nth i [[Num]; [Reg; Num; String_]] [])
                                              (nth i [str "r1"; str "r2"] (str "undefined"))))
                 (seq 0 2)).
Proof.
  apply (proj1 (operand_findings_per_slot asciiOnly)
               2%nat (str "out r1 r2") (str "out") [str "r1"; str "r2"]
               [[Num]; [Reg; Num; String_]]).
  - vm_compute; reflexivity.
  - vm_compute; reflexivity.
  - reflexivity.
Defined.

Lemma isSilent_bool (firstPart : jsstring) :
  isSilent firstPart <->
  (startsWith firstPart (str "#") || arrayIncludes metaKeys firstPart
   || startsWith firstPart (str ".")) = true.
Proof.
  unfold isSilent; rewrite !orb_true_iff, arrayIncludes_In; tauto.
Qed.

Lemma isSilent_spelled (firstPart : jsstring) :
  isSilent firstPart <->
  (startsWith firstPart (str "#") = true \/
   startsWith firstPart (str ".") = true \/
   firstPart = str "meta.name" \/ firstPart = str "meta.version" \/
   firstPart = str "meta.author").
Proof.
  unfold isSilent, metaKeys; simpl; split.
  - intros [H | [H | [H | [H | [H | []]]]]]; auto.
  - intros [H | [H | [H | [H | H]]]]; auto 6.
Qed.

(** C8: on a non-blank line whose upper-cased first token is not in the
    catalog, the line is passed over without a finding exactly when the
    first token starts with [#], starts with [.] or is one of
    [meta.name], [meta.version], [meta.author]; otherwise the line gets
    exactly one Error naming the upper-cased token, and nothing else.
    [.loop], [# comment] and the three meta lines yield nothing,
    [FOO r1], [meta.names] and [META.NAME] one Error.  The range of the
    Error runs from column 0 over the length of the first token, while
    the token stands at the columns after the indent: the range is the
    token's exactly when the line starts with no white space, and on
    [  FOO r1] it covers columns 0 to 3 where the token is at 2 to 5. *)
Theorem unknown_mnemonic_handling (up : jsstring -> jsstring) :
  (forall (lineNum : nat) (rawLine : jsstring),
      trim rawLine <> [] ->
      exists firstPart args after,
        lineTokens (trim rawLine) = firstPart :: args /\
        trim rawLine = firstPart ++ after /\
        firstn (length firstPart) (skipn (indent rawLine) rawLine) = firstPart /\
        (lookup (toUpperCase up firstPart) = None ->
         (checkLine up lineNum rawLine = [] <->
          (startsWith firstPart (str "#") = true \/
           startsWith firstPart (str ".") = true \/
           firstPart = str "meta.name" \/ firstPart = str "meta.version" \/
           firstPart = str "meta.author")) /\
         (~ (startsWith firstPart (str "#") = true \/
             startsWith firstPart (str ".") = true \/
             firstPart = str "meta.name" \/ firstPart = str "meta.version" \/
             firstPart = str "meta.author") ->
          checkLine up lineNum rawLine =
            [ {| range := lineRange lineNum (length firstPart);
                 message := str "Invalid instruction: " ++ toUpperCase up firstPart;
                 severity := Error;
                 code := None |} ] /\
          (lineRange lineNum (length firstPart) =
             columnRange lineNum (indent rawLine) (length firstPart)
           <-> indent rawLine = 0%nat)))) /\
  (checkLines up (str ".loop") = [] /\
   checkLines up (str "# comment") = [] /\
   checkLines up (str "meta.name 'Program'") = [] /\
   checkLines up (str "meta.version '0.1'") = [] /\
   checkLines up (str "meta.author 'Me'") = []) /\
  (checkLines up (str "FOO r1") =
     [ {| range := lineRange 0 3;
          message := str "Invalid instruction: FOO";
          severity := Error;
          code := None |} ] /\
   checkLines up (str "meta.names 'x'") =
     [ {| range := lineRange 0 10;
          message := str "Invalid instruction: META.NAMES";
          severity := Error;
          code := None |} ] /\
   checkLines up (str "META.NAME 'x'") =
     [ {| range := lineRange 0 9;
          message := str "Invalid instruction: META.NAME";
          severity := Error;
          code := None |} ]) /\
  (checkLines up (str "  FOO r1") =
     [ {| range := columnRange 0 0 3;
          message := str "Invalid instruction: FOO";
          severity := Error;
          code := None |} ] /\
   lineTokens (trim (str "  FOO r1")) = [str "FOO"; str "r1"] /\
   firstn 3 (skipn 2 (str "  FOO r1")) = str "FOO" /\
   columnRange 0 0 3 <> columnRange 0 2 3).
Proof.
  split; [| split; [| split]].
  - intros lineNum rawLine NE.
    destruct (lineTokens_first rawLine NE) as (firstPart & args & after & T & A & _).
    exists firstPart, args, after.
    split; [exact T | split; [exact A | split]].
    + exact (trimmed_in_place rawLine firstPart after A).
    + intros L.
      rewrite (checkLine_unknown up lineNum rawLine firstPart args T L).
      rewrite <- isSilent_spelled, isSilent_bool.
      destruct (startsWith firstPart (str "#")); [simpl; intuition congruence |].
      destruct (arrayIncludes metaKeys firstPart); [simpl; intuition congruence |].
      destruct (startsWith firstPart (str ".")); [simpl; intuition congruence |].
      simpl; split; [split; discriminate |].
      intros _; unfold invalidInstruction, newDiagnostic; rewrite newRange4_line.
      split; [reflexivity | apply lineRange_columnRange].
  - repeat split; vm_compute; reflexivity.
  - repeat split; vm_compute; reflexivity.
  - repeat split; try (vm_compute; reflexivity).
    vm_compute; discriminate.
Qed.

Lemma unknown_mnemonic_handling_witness :
  exists firstPart args after,
    lineTokens (trim (str "  foo r1 ")) = firstPart :: args /\
    trim (str "  foo r1 ") = firstPart ++ after /\
    firstn (length firstPart) (skipn (indent (str "  foo r1 ")) (str "  foo r1 ")) =
      firstPart /\
    (lookup (toUpperCase asciiOnly firstPart) = None ->
     (checkLine asciiOnly 4 (str "  foo r1 ") = [] <->
      (startsWith firstPart (str "#") = true \/
       startsWith firstPart (str ".") = true \/
       firstPart = str "meta.name" \/ firstPart = str "meta.version" \/
       firstPart = str "meta.author")) /\
     (~ (startsWith firstPart (str "#") = true \/
         startsWith firstPart (str ".") = true \/
         firstPart = str "meta.name" \/ firstPart = str "meta.version" \/
         firstPart = str "meta.author") ->
      checkLine asciiOnly 4 (str "  foo r1 ") =
        [ {| range := lineRange 4 (length firstPart);
             message := str "Invalid instruction: " ++ toUpperCase asciiOnly firstPart;
             severity := Error;
             code := None |} ] /\
      (lineRange 4 (length firstPart) =
         columnRange 4 (indent (str "  foo r1 ")) (length firstPart)
       <-> indent (str "  foo r1 ") = 0%nat))).
Proof.
  apply (proj1 (unknown_mnemonic_handling asciiOnly) 4%nat (str "  foo r1 ")).
  vm_compute; discriminate.
Defined.

(** C10: every string of register shape is of label shape; hence a
    register-shaped operand is accepted in any slot that accepts Label,
    and [JMP r5], whose slot takes Number or Label, yields no finding. *)
Theorem register_shape_accepted_as_label (up : jsstring -> jsstring) :
  (forall s : jsstring, isRegisterShape s = true -> isLabelShape s = true) /\
  (forall (lineNum : nat) (line instruction : jsstring) (signature : Signature)
          (args : list jsstring) (i : nat),
      In Label (nth i signature []) ->
      isRegisterShape (nth i args (str "undefined")) = true ->
      operandValid (nth i signature []) (nth i args (str "undefined")) = true /\
      checkOperand lineNum line instruction signature args i = []) /\
  lookup (str "JMP") = Some [[Num; Label]] /\
  checkLines up (str "JMP r5") = [].
Proof.
  split; [exact register_is_label |].
  split; [| split; vm_compute; reflexivity].
  intros lineNum line instruction signature args i I R.
  assert (V : operandValid (nth i signature []) (nth i args (str "undefined")) = true)
    by (apply (operandValid_In _ _ Label I); simpl; apply register_is_label; exact R).
  split; [exact V | unfold checkOperand; rewrite V; reflexivity].
Qed.

Lemma register_shape_accepted_as_label_witness :
  isLabelShape (str "R15") = true.
Proof.
  apply (proj1 (register_shape_accepted_as_label asciiOnly) (str "R15")).
  vm_compute; reflexivity.
Defined.

(** ** Completion *)

(** C9: a completion request returns the same list for every document
    and position: one item per catalog mnemonic, in catalog order, each
    the lower-cased mnemonic as a Keyword item with detail
    [Carnival instruction]. *)
Theorem completion_is_context_free (lo : jsstring -> jsstring)
  (document document' : TextDocument) (position position' : Position) :
  provideCompletionItems lo document position =
    provideCompletionItems lo document' position' /\
  length (provideCompletionItems lo document position) = length mnemonics /\
  provideCompletionItems lo document position =
    map (fun inst =>
           {| label := map asciiLower inst;
              kind := Keyword;
              insertText := map asciiLower inst;
              detail := str "Carnival instruction" |})
        mnemonics /\
  map label (provideCompletionItems lo document position) =
    map str [ "mov"; "lod"; "str"; "psh"; "pop"; "add"; "sub"; "mod"; "xor";
              "and"; "not"; "or"; "jmp"; "cal"; "ret"; "brz"; "bnz"; "in";
              "out"; "gip"; "hlt"; "brg"; "bng"; "brl"; "bnl" ]%string.
Proof.
  split; [reflexivity |].
  split; [unfold provideCompletionItems; rewrite !length_map; reflexivity |].
  split; vm_compute; reflexivity.
Qed.

(** ** The missing-key check *)

Lemma checkLine_Error (up : jsstring -> jsstring) (lineNum : nat)
  (rawLine : jsstring) (d : Diagnostic) :
  In d (checkLine up lineNum rawLine) -> severity d = Error /\ code d = None.
Proof.
  destruct (checkLine_cases up lineNum rawLine)
    as [E | [(fp & ins & E) | [(l & ins & sg & ar & E) | (l & ins & sg & ar & E)]]];
    rewrite E.
  - intros [].
  - intros [<- | []]; split; reflexivity.
  - intros [<- | []]; split; reflexivity.
  - intros I; apply in_flat_map in I; destruct I as (i & _ & I).
    apply checkOperand_In in I; subst d; split; reflexivity.
Qed.

Lemma checkLinesFrom_Error (up : jsstring -> jsstring) (lines : list jsstring) :
  forall (lineNum : nat) (d : Diagnostic),
    In d (checkLinesFrom up lineNum lines) -> severity d = Error /\ code d = None.
Proof.
  induction lines as [|l lines IH]; simpl; intros lineNum d I; [destruct I |].
  apply in_app_or in I; destruct I as [I | I].
  - exact (checkLine_Error up lineNum l d I).
  - exact (IH (S lineNum) d I).
Qed.

Lemma checkRegisters_Error (text : jsstring) (d : Diagnostic) :
  In d (checkRegisters text) -> severity d = Error /\ code d = None.
Proof.
  unfold checkRegisters; intros I; apply in_flat_map in I.
  destruct I as (m & _ & I); unfold checkRegisterMatch in I.
  destruct (outOfRange _); [|destruct I].
  destruct I as [<- | []]; split; reflexivity.
Qed.

Lemma filter_none {A : Type} (p : A -> bool) (xs : list A) :
  (forall x, In x xs -> p x = false) -> filter p xs = [].
Proof.
  induction xs as [|x xs IH]; simpl; intros H; [reflexivity |].
  rewrite (H x (or_introl eq_refl)); apply IH; intros y I; apply H; right; exact I.
Qed.

Lemma errors_not_information (up : jsstring -> jsstring) (text : jsstring) :
  filter isInformation (checkRegisters text ++ checkLines up text) = [].
Proof.
  apply filter_none; intros d I; unfold isInformation.
  apply in_app_or in I; destruct I as [I | I].
  - destruct (checkRegisters_Error text d I) as [-> _]; reflexivity.
  - destruct (checkLinesFrom_Error up _ _ d I) as [-> _]; reflexivity.
Qed.

(** C7: the missing-key check is a substring test on the whole text.  A
    document in which none of [meta.name], [meta.version], [meta.author]
    occurs gets exactly three Information findings, in that order, each
    at (0,0) and with the code [missing_] followed by its key, ahead of
    all other findings; a document in which all three occur, wherever,
    gets no Information finding and no finding with a code. *)
Theorem meta_keys_substring_check (up : jsstring -> jsstring) :
  (forall text key : jsstring, includes text key = true <-> occursIn key text) /\
  (forall text : jsstring,
      (forall key, In key requiredKeys -> ~ occursIn key text) ->
      let missing key :=
        {| range := lineRange 0 0;
           message := str "Missing key: " ++ key;
           severity := Information;
           code := Some (str "missing_" ++ key) |} in
      let three :=
        [ missing (str "meta.name"); missing (str "meta.version");
          missing (str "meta.author") ] in
      checkMeta text = three /\
      filter isInformation (computeDiagnostics up text) = three /\
      computeDiagnostics up text = three ++ checkRegisters text ++ checkLines up text) /\
  (forall text : jsstring,
      (forall key, In key requiredKeys -> occursIn key text) ->
      checkMeta text = [] /\
      filter isInformation (computeDiagnostics up text) = [] /\
      forall d, In d (computeDiagnostics up text) -> code d = None) /\
  computeDiagnostics up (str "# meta.name meta.version meta.author") = [].
Proof.
  split; [exact includes_occursIn |].
  split; [| split; [| vm_compute; reflexivity]].
  - intros text H missing three.
    assert (M : checkMeta text = three).
    { unfold checkMeta, requiredKeys; simpl.
      assert (F : forall key, In key requiredKeys -> includes text key = false).
      { intros key I; destruct (includes text key) eqn:E; [|reflexivity].
        apply includes_occursIn in E; destruct (H key I E). }
      rewrite !F by (unfold requiredKeys; simpl; auto).
      reflexivity. }
    unfold computeDiagnostics; rewrite M; split; [reflexivity | split; [|reflexivity]].
    rewrite filter_app, errors_not_information, app_nil_r; reflexivity.
  - intros text H.
    assert (M : checkMeta text = []).
    { unfold checkMeta, requiredKeys; simpl.
      assert (F : forall key, In key requiredKeys -> includes text key = true)
        by (intros key I; apply includes_occursIn; exact (H key I)).
      rewrite !F by (unfold requiredKeys; simpl; auto).
      reflexivity. }
    unfold computeDiagnostics; rewrite M; split; [reflexivity | split].
    + apply errors_not_information.
    + intros d I; simpl in I; apply in_app_or in I; destruct I as [I | I].
      * exact (proj2 (checkRegisters_Error text d I)).
      * exact (proj2 (checkLinesFrom_Error up _ _ d I)).
Qed.

Lemma meta_keys_substring_check_witness :
  checkMeta (str "hlt") =
    [ {| range := lineRange 0 0; message := str "Missing key: " ++ str "meta.name";
         severity := Information; code := Some (str "missing_" ++ str "meta.name") |};
      {| range := lineRange 0 0; message := str "Missing key: " ++ str "meta.version";
         severity := Information; code := Some (str "missing_" ++ str "meta.version") |};
      {| range := lineRange 0 0; message := str "Missing key: " ++ str "meta.author";
         severity := Information; code := Some (str "missing_" ++ str "meta.author") |} ].
Proof.
  apply (proj1 (proj2 (meta_keys_substring_check asciiOnly)) (str "hlt")).
  intros key I E; apply includes_occursIn in E; revert E.
  destruct I as [<- | [<- | [<- | []]]]; vm_compute; discriminate.
Defined.

(** ** The register range scan *)

Lemma isWord_not_LF (c : CodeUnit) : isWord c = true -> (c =? 10) = false.
Proof.
  unfold isWord, isLetter, isDigit; intros H; apply N.eqb_neq; intros ->.
  discriminate.
Qed.

Lemma register_chars_word (w : jsstring) :
  isRegisterShape w = true -> Forall (fun c => isWord c = true) w.
Proof.
  destruct w as [|r [|d1 [|d2 [|x w]]]]; simpl; try discriminate; intros H.
  - apply andb_prop in H; destruct H as [R D1].
    repeat constructor; auto using isR_isWord, isDigit_isWord.
  - apply andb_prop in H; destruct H as [H D2].
    apply andb_prop in H; destruct H as [R D1].
    repeat constructor; auto using isR_isWord, isDigit_isWord.
Qed.

Lemma lastOr_app (before : option CodeUnit) (a b : jsstring) :
  lastOr before (a ++ b) = lastOr (lastOr before a) b.
Proof. unfold lastOr; apply fold_left_app. Qed.

Lemma lastOr_In (before : option CodeUnit) (read : jsstring) :
  read <> [] -> exists c, lastOr before read = Some c /\ In c read.
Proof.
  revert before; induction read as [|x read IH]; intros before NE;
    [contradiction |].
  destruct read as [|y read].
  - exists x; split; [reflexivity | left; reflexivity].
  - destruct (IH (Some x)) as (c & E & I); [discriminate |].
    exists c; split; [exact E | right; exact I].
Qed.

Lemma lastOr_word (before : option CodeUnit) (read : jsstring) :
  read <> [] -> Forall (fun c => isWord c = true) read ->
  isWordAt (lastOr before read) = true.
Proof.
  intros NE F; destruct (lastOr_In before read NE) as (c & -> & I).
  simpl; rewrite Forall_forall in F; exact (F c I).
Qed.

Lemma register_nonempty (w : jsstring) : isRegisterShape w = true -> w <> [].
Proof. destruct w; simpl; [discriminate | intros _; discriminate]. Qed.

(** One attempt of the pattern succeeds exactly on a whole-word,
    register-shaped prefix. *)
Lemma matchRegisterAt_spec (before : option CodeUnit) (s m : jsstring) :
  matchRegisterAt before s = Some m <->
  exists post,
    s = m ++ post /\ isRegisterShape m = true /\
    isWordAt before = false /\ isWordAt (hd_error post) = false.
Proof.
  split.
  - destruct s as [|r [|d1 tl1]]; simpl; try discriminate.
    destruct (wordBoundary before (Some r) && isR r && isDigit d1) eqn:G;
      [|discriminate].
    apply andb_prop in G; destruct G as [G D1].
    apply andb_prop in G; destruct G as [B R].
    assert (Bf : isWordAt before = false).
    { unfold wordBoundary in B; simpl in B; rewrite (isR_isWord r R) in B.
      destruct (isWordAt before); [discriminate | reflexivity]. }
    destruct tl1 as [|d2 tl2].
    + destruct (wordBoundary (Some d1) None); [|discriminate].
      intros H; inversion H; subst; exists []; simpl.
      rewrite R, D1; auto.
    + destruct (isDigit d2 && wordBoundary (Some d2) (hd_error tl2)) eqn:G2.
      * apply andb_prop in G2; destruct G2 as [D2 B2].
        intros H; inversion H; subst; exists tl2; simpl.
        rewrite R, D1, D2; repeat split; auto.
        unfold wordBoundary in B2; simpl in B2.
        rewrite (isDigit_isWord d2 D2) in B2.
        destruct (isWordAt (hd_error tl2)); [discriminate | reflexivity].
      * destruct (wordBoundary (Some d1) (Some d2)) eqn:B1; [|discriminate].
        intros H; inversion H; subst; exists (d2 :: tl2); simpl.
        rewrite R, D1; repeat split; auto.
        unfold wordBoundary in B1; simpl in B1.
        rewrite (isDigit_isWord d1 D1) in B1.
        destruct (isWord d2); [discriminate | reflexivity].
  - intros (post & -> & Sh & Bf & Af).
    destruct m as [|r [|d1 [|d2 [|x m]]]]; simpl in Sh; try discriminate.
    + apply andb_prop in Sh; destruct Sh as [R D1].
      cbn [app matchRegisterAt]; unfold wordBoundary at 1.
      rewrite Bf; cbn [isWordAt]; rewrite (isR_isWord r R), R, D1; cbn [xorb andb].
      destruct post as [|x post].
      * unfold wordBoundary; simpl; rewrite (isDigit_isWord d1 D1); reflexivity.
      * simpl in Af.
        assert (Dx : isDigit x = false).
        { destruct (isDigit x) eqn:E; [|reflexivity].
          rewrite (isDigit_isWord x E) in Af; discriminate. }
        rewrite Dx; cbn [andb]; unfold wordBoundary; simpl.
        rewrite (isDigit_isWord d1 D1), Af; reflexivity.
    + apply andb_prop in Sh; destruct Sh as [Sh D2].
      apply andb_prop in Sh; destruct Sh as [R D1].
      cbn [app matchRegisterAt]; unfold wordBoundary at 1.
      rewrite Bf; cbn [isWordAt]; rewrite (isR_isWord r R), R, D1, D2; cbn [xorb andb].
      unfold wordBoundary; cbn [isWordAt]; rewrite (isDigit_isWord d2 D2), Af.
      reflexivity.
Qed.

Lemma skipn_length_app (a b : jsstring) : skipn (length a) (a ++ b) = b.
Proof. induction a as [|x a IH]; simpl; [reflexivity | exact IH]. Qed.

Lemma no_register_in_empty (before : option CodeUnit) (j : nat) (w : jsstring) :
  isRegisterShape w = true -> ~ wholeWordFrom before [] j w.
Proof.
  intros Sh (pre & post & E & _).
  symmetry in E; apply app_eq_nil in E; destruct E as [_ E].
  apply app_eq_nil in E; destruct E as [-> _]; discriminate.
Qed.

(** The matches of the loop are exactly the whole-word occurrences of
    register-shaped tokens, each at its offset. *)
Lemma execRegisters_spec (fuel : nat) :
  forall (s : jsstring) (before : option CodeUnit) (index i : nat) (w : jsstring),
    (length s <= fuel)%nat ->
    (In (i, w) (execRegisters fuel before index s) <->
     exists j, i = (index + j)%nat /\ isRegisterShape w = true /\
               wholeWordFrom before s j w).
Proof.
  induction fuel as [|fuel IH]; intros s before index i w Len.
  - destruct s; [|simpl in Len; lia]; simpl; split; [intros [] |].
    intros (j & _ & Sh & W); exact (no_register_in_empty _ _ _ Sh W).
  - destruct s as [|c rest].
    { simpl; split; [intros [] |].
      intros (j & _ & Sh & W); exact (no_register_in_empty _ _ _ Sh W). }
    cbn [execRegisters].
    destruct (matchRegisterAt before (c :: rest)) as [m|] eqn:M.
    + pose proof M as M'.
      apply matchRegisterAt_spec in M; destruct M as (post & E & Sh & Bf & Af).
      rewrite E in *; rewrite skipn_length_app.
      assert (Lp : (length post <= fuel)%nat).
      { pose proof (register_nonempty m Sh) as NE.
        rewrite length_app in Len; destruct m; [contradiction | simpl in Len; lia]. }
      cbn [In]; rewrite (IH post _ _ i w Lp); split.
      * intros [Eq | (j & -> & Shw & pre & post' & Ep & Lpre & Bp & Ap)].
        -- inversion Eq; subst; exists 0%nat; split; [lia | split; [exact Sh |]].
           exists [], post; simpl; auto.
        -- exists (length m + j)%nat; split; [lia | split; [exact Shw |]].
           exists (m ++ pre), post'; rewrite Ep, <- app_assoc, length_app, lastOr_app.
           subst j; auto.
      * intros (j & -> & Shw & pre & post' & Ep & Lpre & Bp & Ap).
        destruct pre as [|x pre].
        -- left; simpl in Ep, Lpre, Bp; subst j.
           assert (Mw : matchRegisterAt before (m ++ post) = Some w)
             by (apply matchRegisterAt_spec; exists post'; auto).
           rewrite M' in Mw; inversion Mw; subst; f_equal; lia.
        -- right; apply app_eq_app in Ep; destruct Ep as (l & [[E1 E2] | [E1 E2]]).
           ++ exfalso.
              assert (Wd : isWordAt (lastOr before (x :: pre)) = true).
              { apply lastOr_word; [discriminate |].
                pose proof (register_chars_word m Sh) as F.
                rewrite E1 in F; apply Forall_app in F; exact (proj1 F). }
              rewrite Wd in Bp; discriminate.
           ++ exists (length l); split;
                [rewrite <- Lpre, E1, length_app; lia | split; [exact Shw |]].
              exists l, post'; rewrite <- lastOr_app, <- E1; auto.
    + assert (Lr : (length rest <= fuel)%nat) by (simpl in Len; lia).
      rewrite (IH rest _ _ i w Lr); split.
      * intros (j & -> & Shw & pre & post' & Ep & Lpre & Bp & Ap).
        exists (S j); split; [lia | split; [exact Shw |]].
        exists (c :: pre), post'; simpl; rewrite Ep; subst j; auto.
      * intros (j & -> & Shw & pre & post' & Ep & Lpre & Bp & Ap).
        destruct pre as [|x pre].
        -- exfalso; simpl in Ep, Lpre, Bp.
           assert (Mw : matchRegisterAt before (c :: rest) = Some w)
             by (apply matchRegisterAt_spec; exists post'; auto).
           rewrite M in Mw; discriminate.
        -- simpl in Ep; inversion Ep; subst.
           exists (length pre); split; [simpl; lia | split; [exact Shw |]].
           exists pre, post'; auto.
Qed.

Lemma registerMatches_spec (text : jsstring) (i : nat) (w : jsstring) :
  In (i, w) (registerMatches text) <->
  isRegisterShape w = true /\ wholeWordAt text i w.
Proof.
  unfold registerMatches, wholeWordAt.
  rewrite (execRegisters_spec (length text) text None 0 i w (le_n _)); split.
  - intros (j & -> & Sh & W); auto.
  - intros (Sh & W); exists i; auto.
Qed.

Lemma isDigit_bounds (c : CodeUnit) : isDigit c = true -> 48 <= c <= 57.
Proof.
  unfold isDigit; intros H; apply andb_prop in H; destruct H as [A B].
  apply N.leb_le in A, B; lia.
Qed.

Lemma parseInt_register (w : jsstring) :
  isRegisterShape w = true -> parseInt (tl w) = Some (registerNumber w).
Proof.
  destruct w as [|r [|d1 [|d2 [|x w]]]]; cbn [isRegisterShape]; try discriminate;
    intros H.
  - apply andb_prop in H; destruct H as [_ D1].
    unfold parseInt; cbn [tl digitsPrefix]; rewrite D1; cbn [fold_left].
    unfold registerNumber, digitValue; f_equal; lia.
  - apply andb_prop in H; destruct H as [H D2].
    apply andb_prop in H; destruct H as [_ D1].
    unfold parseInt; cbn [tl digitsPrefix]; rewrite D1, D2; cbn [fold_left].
    unfold registerNumber, digitValue; f_equal; lia.
Qed.

Lemma registerNumber_bounds (w : jsstring) :
  isRegisterShape w = true -> (0 <= registerNumber w <= 99)%Z.
Proof.
  destruct w as [|r [|d1 [|d2 [|x w]]]]; cbn [isRegisterShape]; try discriminate;
    intros H.
  - apply andb_prop in H; destruct H as [_ D1].
    apply isDigit_bounds in D1; unfold registerNumber, digitValue; lia.
  - apply andb_prop in H; destruct H as [H D2].
    apply andb_prop in H; destruct H as [_ D1].
    apply isDigit_bounds in D1, D2; unfold registerNumber, digitValue; lia.
Qed.

Lemma outOfRange_register (w : jsstring) :
  isRegisterShape w = true ->
  outOfRange (parseInt (tl w)) = true <-> (15 < registerNumber w)%Z.
Proof.
  intros Sh; rewrite (parseInt_register w Sh); simpl.
  pose proof (registerNumber_bounds w Sh) as B.
  rewrite orb_true_iff, Z.ltb_lt, Z.ltb_lt; lia.
Qed.

Lemma firstn_length_app (a b : jsstring) : firstn (length a) (a ++ b) = a.
Proof. induction a as [|x a IH]; simpl; [reflexivity | f_equal; exact IH]. Qed.

Lemma advance_word (w : jsstring) :
  Forall (fun c => isWord c = true) w ->
  forall p, fold_left advance w p =
            {| line := line p; character := character p + length w |}.
Proof.
  induction 1 as [|c w Hc _ IH]; intros p; simpl.
  - rewrite Nat.add_0_r; destruct p; reflexivity.
  - rewrite IH; unfold advance; rewrite (isWord_not_LF c Hc); simpl.
    f_equal; lia.
Qed.

(** A register token lies within one line: its end position is its
    start position moved right by its length. *)
Lemma positionAt_register (pre w post : jsstring) :
  isRegisterShape w = true ->
  newRange (positionAt (pre ++ w ++ post) (length pre))
           (positionAt (pre ++ w ++ post) (length pre + length w)) =
    spanFrom (positionAt (pre ++ w ++ post) (length pre)) (length w) /\
  positionAt (pre ++ w ++ post) (length pre + length w) =
    end_ (spanFrom (positionAt (pre ++ w ++ post) (length pre)) (length w)).
Proof.
  intros Sh; unfold positionAt.
  rewrite firstn_length_app.
  replace (firstn (length pre + length w) (pre ++ w ++ post)) with (pre ++ w)
    by (rewrite firstn_app_2, firstn_length_app; reflexivity).
  rewrite fold_left_app, (advance_word w (register_chars_word w Sh)).
  split; [| reflexivity].
  unfold newRange, isBefore, spanFrom; simpl.
  rewrite Nat.ltb_irrefl, Nat.eqb_refl; simpl.
  replace (_ <? _)%nat with false by (symmetry; apply Nat.ltb_ge; lia).
  reflexivity.
Qed.

Lemma invalidRegister_span (text : jsstring) (i : nat) (w : jsstring) :
  isRegisterShape w = true -> wholeWordAt text i w ->
  invalidRegister text i w =
    {| range := spanFrom (positionAt text i) (length w);
       message := str "Invalid register: " ++ w;
       severity := Error;
       code := None |} /\
  positionAt text (i + length w) =
    end_ (spanFrom (positionAt text i) (length w)).
Proof.
  intros Sh (pre & post & -> & <- & _).
  destruct (positionAt_register pre w post Sh) as [R E].
  unfold invalidRegister, newDiagnostic; rewrite R; auto.
Qed.

(** C6: the register scan reports, as an Error over exactly the
    characters of the token, every whole-word occurrence in the text of
    a register-shaped token whose number lies outside 0..15, wherever it
    stands; a whole-word register-shaped token whose number lies in
    0..15 adds nothing, and every finding of the scan comes from an
    occurrence whose number exceeds 15. *)
Theorem register_scan_reports_out_of_range (up : jsstring -> jsstring)
  (text : jsstring) :
  (forall (i : nat) (w : jsstring),
      isRegisterShape w = true -> wholeWordAt text i w ->
      (registerNumber w < 0 \/ 15 < registerNumber w)%Z ->
      let d := {| range := spanFrom (positionAt text i) (length w);
                  message := str "Invalid register: " ++ w;
                  severity := Error;
                  code := None |} in
      In d (checkRegisters text) /\ In d (computeDiagnostics up text) /\
      positionAt text (i + length w) = end_ (range d)) /\
  (forall (i : nat) (w : jsstring),
      isRegisterShape w = true -> wholeWordAt text i w ->
      (0 <= registerNumber w <= 15)%Z ->
      In (i, w) (registerMatches text) /\ checkRegisterMatch text (i, w) = []) /\
  (forall d : Diagnostic,
      In d (checkRegisters text) ->
      exists (i : nat) (w : jsstring),
        isRegisterShape w = true /\ wholeWordAt text i w /\
        (15 < registerNumber w)%Z /\
        d = {| range := spanFrom (positionAt text i) (length w);
               message := str "Invalid register: " ++ w;
               severity := Error;
               code := None |}) /\
  checkRegisters text = flat_map (checkRegisterMatch text) (registerMatches text).
Proof.
  split; [| split; [| split; [| reflexivity]]].
  - intros i w Sh W Out d.
    assert (Big : (15 < registerNumber w)%Z)
      by (pose proof (registerNumber_bounds w Sh); lia).
    destruct (invalidRegister_span text i w Sh W) as [Ed Ee].
    assert (I : In d (checkRegisters text)).
    { unfold checkRegisters; apply in_flat_map; exists (i, w); split.
      - apply registerMatches_spec; auto.
      - unfold checkRegisterMatch; cbn [fst snd].
        rewrite (proj2 (outOfRange_register w Sh) Big), Ed; left; reflexivity. }
    split; [exact I | split; [| exact Ee]].
    unfold computeDiagnostics; apply in_or_app; right; apply in_or_app; left.
    exact I.
  - intros i w Sh W In15; split; [apply registerMatches_spec; auto |].
    unfold checkRegisterMatch; cbn [fst snd].
    destruct (outOfRange (parseInt (tl w))) eqn:O; [| reflexivity].
    apply (outOfRange_register w Sh) in O; lia.
  - intros d I; unfold checkRegisters in I; apply in_flat_map in I.
    destruct I as ([i w] & M & I); apply registerMatches_spec in M.
    destruct M as [Sh W]; unfold checkRegisterMatch in I; cbn [fst snd] in I.
    destruct (outOfRange (parseInt (tl w))) eqn:O; [| destruct I].
    apply (outOfRange_register w Sh) in O.
    destruct I as [<- | []]; exists i, w.
    repeat split; auto; exact (proj1 (invalidRegister_span text i w Sh W)).
Qed.

Lemma register_scan_reports_out_of_range_witness :
  In {| range := spanFrom (positionAt (str "# see r16.") 6) (length (str "r16"));
        message := str "Invalid register: " ++ str "r16";
        severity := Error;
        code := None |}
     (checkRegisters (str "# see r16.")).
Proof.
  apply (proj1 (register_scan_reports_out_of_range asciiOnly (str "# see r16."))
               6%nat (str "r16")).
  - vm_compute; reflexivity.
  - exists (str "# see "), (str "."); vm_compute; auto.
  - right; vm_compute; reflexivity.
Defined.

(** ** Fuel

    Both regex loops are given the length of their input as fuel; more
    fuel never changes what they return. *)

Lemma matchTokens_fuel (f1 : nat) :
  forall (f2 : nat) (s : jsstring),
    (length s <= f1)%nat -> (length s <= f2)%nat ->
    matchTokens f1 s = matchTokens f2 s.
Proof.
  induction f1 as [|f1 IH]; intros f2 s L1 L2.
  - destruct s; [|simpl in L1; lia]; destruct f2; reflexivity.
  - destruct s as [|c rest]; [destruct f2; reflexivity |].
    destruct f2 as [|f2]; [simpl in L2; lia |].
    cbn [matchTokens]; simpl in L1, L2.
    destruct (matchTokenAt (c :: rest)) as [[tok after]|] eqn:M.
    + apply matchTokenAt_app in M; destruct M as [E NE].
      assert (length after <= length rest)%nat.
      { apply (f_equal (@length _)) in E; rewrite length_app in E.
        destruct tok; [contradiction | simpl in E; lia]. }
      f_equal; apply IH; lia.
    + apply IH; lia.
Qed.

Lemma lineTokens_fuel (fuel : nat) (line : jsstring) :
  (length line <= fuel)%nat -> matchTokens fuel line = lineTokens line.
Proof. intros L; apply matchTokens_fuel; [exact L | apply le_n]. Qed.

Lemma execRegisters_fuel (f1 : nat) :
  forall (f2 : nat) (s : jsstring) (before : option CodeUnit) (index : nat),
    (length s <= f1)%nat -> (length s <= f2)%nat ->
    execRegisters f1 before index s = execRegisters f2 before index s.
Proof.
  induction f1 as [|f1 IH]; intros f2 s before index L1 L2.
  - destruct s; [|simpl in L1; lia]; destruct f2; reflexivity.
  - destruct s as [|c rest]; [destruct f2; reflexivity |].
    destruct f2 as [|f2]; [simpl in L2; lia |].
    cbn [execRegisters].
    destruct (matchRegisterAt before (c :: rest)) as [m|] eqn:M.
    + apply matchRegisterAt_spec in M; destruct M as (post & E & Sh & _).
      rewrite E in *; rewrite skipn_length_app.
      assert (length post < length (m ++ post))%nat.
      { rewrite length_app; pose proof (register_nonempty m Sh).
        destruct m; [contradiction | simpl; lia]. }
      f_equal; apply IH; lia.
    + simpl in L1, L2; apply IH; lia.
Qed.

Lemma registerMatches_fuel (fuel : nat) (text : jsstring) :
  (length text <= fuel)%nat ->
  execRegisters fuel None 0 text = registerMatches text.
Proof. intros L; apply execRegisters_fuel; [exact L | apply le_n]. Qed.

(** ** The collection *)

(** For a document of the language, [updateDiagnostics] replaces the
    entry of the document by the findings of this run; any other document
    leaves the collection as it is. *)
Lemma updateDiagnostics_sets (up : jsstring -> jsstring) (doc : TextDocument)
  (c : DiagnosticCollection) :
  (languageId doc = str "carnival" ->
   updateDiagnostics up doc c (uri doc) = Some (computeDiagnostics up (getText doc))) /\
  (languageId doc <> str "carnival" -> updateDiagnostics up doc c = c).
Proof.
  unfold updateDiagnostics, collectionSet; split; intros H.
  - rewrite H; simpl; rewrite eqbS_refl; reflexivity.
  - destruct (eqbS (languageId doc) (str "carnival")) eqn:E; [|reflexivity].
    apply eqbS_eq in E; contradiction.
Qed.

(** * Further properties of the code *)

(** ** The catalog as a lookup table *)

Lemma mnemonics_NoDup : NoDup (map fst INSTRUCTIONS).
Proof.
  cbn -[str].
  repeat (constructor; [cbn; intuition discriminate |]).
  constructor.
Qed.

Lemma lookupIn_In (table : list (jsstring * Signature)) (key : jsstring)
  (sig : Signature) :
  lookupIn table key = Some sig -> In (key, sig) table.
Proof.
  induction table as [|[k s] table IH]; simpl; [discriminate |].
  destruct (eqbS k key) eqn:E.
  - apply eqbS_eq in E; intros H; inversion H; subst; left; reflexivity.
  - intros H; right; exact (IH H).
Qed.

Lemma In_lookupIn (table : list (jsstring * Signature)) (key : jsstring)
  (sig : Signature) :
  NoDup (map fst table) -> In (key, sig) table -> lookupIn table key = Some sig.
Proof.
  induction table as [|[k s] table IH]; simpl; intros ND I; [destruct I |].
  inversion ND as [|? ? NI ND']; subst.
  destruct I as [E | I].
  - inversion E; subst; rewrite eqbS_refl; reflexivity.
  - destruct (eqbS k key) eqn:E; [| exact (IH ND' I)].
    apply eqbS_eq in E; subst k; exfalso; apply NI.
    apply (in_map fst) in I; exact I.
Qed.

Lemma toUpperCase_upper (up : jsstring -> jsstring) (s : jsstring) :
  forallb isUpperLetter s = true -> toUpperCase up s = s.
Proof.
  intros H; unfold toUpperCase.
  assert (A : forallb isAscii s = true /\ map asciiUpper s = s).
  { induction s as [|c s IH]; simpl in *; [auto |].
    apply andb_prop in H; destruct H as [C H]; destruct (IH H) as [-> ->].
    unfold isUpperLetter in C; apply andb_prop in C; destruct C as [C1 C2].
    apply N.leb_le in C1, C2; unfold isAscii, asciiUpper.
    replace (c <? 128) with true by (symmetry; apply N.ltb_lt; lia).
    replace (97 <=? c) with false by (symmetry; apply N.leb_gt; lia).
    auto. }
  destruct A as [-> ->]; reflexivity.
Qed.

(** The table answers exactly for its own entries: a key has a
    signature iff the pair is listed; every listed key is upper-case
    ASCII and so is its own upper-casing, and the lower-cased key is
    found as well; no signature has an empty slot or more than three
    slots. *)
Theorem catalog_lookup_sound_complete (up lo : jsstring -> jsstring) :
  (forall key sig, lookup key = Some sig <-> In (key, sig) INSTRUCTIONS) /\
  (forall key sig,
      In (key, sig) INSTRUCTIONS ->
      toUpperCase up key = key /\
      lookup (toUpperCase up (toLowerCase lo key)) = Some sig /\
      (length sig <= 3)%nat /\
      Forall (fun slot => slot <> []) sig).
Proof.
  split.
  - intros key sig; split; [apply lookupIn_In | apply In_lookupIn, mnemonics_NoDup].
  - assert (F : Forall (fun e : jsstring * Signature =>
                     forallb isUpperLetter (fst e) = true /\
                     map asciiUpper (map asciiLower (fst e)) = fst e /\
                     forallb isAscii (fst e) = true /\
                     forallb isAscii (map asciiLower (fst e)) = true /\
                     (length (snd e) <=? 3)%nat = true /\
                     forallb (fun slot => negb (length slot =? 0)%nat) (snd e) = true)
                  INSTRUCTIONS)
      by (repeat constructor).
    rewrite Forall_forall in F; intros key sig I.
    destruct (F _ I) as (U & R & A1 & A2 & L & S); simpl in *.
    split; [apply toUpperCase_upper; exact U | split; [| split]].
    + unfold toLowerCase, toUpperCase; rewrite A1, A2, R.
      apply In_lookupIn; [apply mnemonics_NoDup | exact I].
    + apply Nat.leb_le; exact L.
    + rewrite forallb_forall in S; apply Forall_forall; intros slot Is E.
      specialize (S slot Is); rewrite E in S; discriminate.
Qed.

Lemma catalog_lookup_sound_complete_witness :
  In (str "OUT", [[Num]; [Reg; Num; String_]]) INSTRUCTIONS.
Proof.
  apply (proj1 (proj1 (catalog_lookup_sound_complete asciiOnly asciiOnly)
                      (str "OUT") [[Num]; [Reg; Num; String_]])).
  vm_compute; reflexivity.
Defined.

(** ** Completion against the validator *)

(** Every completion item is a mnemonic the validator knows: typed alone
    on a line it is never an invalid instruction; the line is clean when
    the instruction takes no operand and carries the one arity finding
    otherwise.  The labels are pairwise distinct. *)
Theorem completions_are_recognized (up lo : jsstring -> jsstring)
  (document : TextDocument) (position : Position) :
  Forall (fun item =>
            exists sig,
              lookup (toUpperCase up (insertText item)) = Some sig /\
              forall lineNum,
                checkLine up lineNum (insertText item) =
                  match sig with
                  | [] => []
                  | _ :: _ =>
                      [wrongArity lineNum (insertText item)
                                  (toUpperCase up (insertText item)) sig []]
                  end)
         (provideCompletionItems lo document position) /\
  NoDup (map label (provideCompletionItems lo document position)).
Proof.
  split.
  - unfold provideCompletionItems.
    repeat (constructor;
            [eexists; split; [vm_compute; reflexivity
                             | intros lineNum; vm_compute; reflexivity] |]).
    constructor.
  - unfold provideCompletionItems; cbn -[str].
    repeat (constructor; [vm_compute; intuition discriminate |]).
    constructor.
Qed.

(** ** Operand kinds *)

Lemma isLetter_bounds (c : CodeUnit) :
  isLetter c = true -> 65 <= c <= 90 \/ 97 <= c <= 122.
Proof.
  unfold isLetter; intros H; apply orb_prop in H; destruct H as [H | H];
    apply andb_prop in H; destruct H as [A B]; apply N.leb_le in A, B; lia.
Qed.

Lemma label_first (s : jsstring) :
  isLabelShape s = true ->
  exists c rest, s = c :: rest /\ (c = 46 \/ c = 95 \/ 65 <= c <= 90 \/ 97 <= c <= 122).
Proof.
  destruct s as [|c rest]; simpl; [discriminate |]; intros H.
  apply andb_prop in H; destruct H as [H _]; exists c, rest; split; [reflexivity |].
  apply orb_prop in H; destruct H as [H | H];
    [apply orb_prop in H; destruct H as [H | H] |].
  - apply N.eqb_eq in H; auto.
  - apply isLetter_bounds in H; tauto.
  - apply N.eqb_eq in H; auto.
Qed.

Lemma number_first (s : jsstring) :
  isNumberShape s = true -> exists c rest, s = c :: rest /\ 48 <= c <= 57.
Proof.
  destruct s as [|c rest]; simpl; [discriminate |]; intros H.
  apply andb_prop in H; destruct H as [H _]; exists c, rest.
  split; [reflexivity | apply isDigit_bounds; exact H].
Qed.

Lemma string_first (s : jsstring) :
  isStringShape s = true -> exists rest, s = 39 :: rest.
Proof.
  destruct s as [|c rest]; simpl; [discriminate |]; intros H.
  apply andb_prop in H; destruct H as [H _]; apply N.eqb_eq in H.
  subst c; exists rest; reflexivity.
Qed.

(** The Number, Label and String patterns exclude one another, and the
    Register pattern excludes Number and String: an operand fits at most
    one of Number, Label and String, and a register-shaped operand fits
    Register and Label only. *)
Theorem operand_kinds_exclusive (actual : jsstring) :
  (isNumberShape actual = true ->
   isRegisterShape actual = false /\ isLabelShape actual = false /\
   isStringShape actual = false) /\
  (isStringShape actual = true ->
   isRegisterShape actual = false /\ isNumberShape actual = false /\
   isLabelShape actual = false) /\
  (isLabelShape actual = true ->
   isNumberShape actual = false /\ isStringShape actual = false) /\
  (isRegisterShape actual = true ->
   forall k, kindMatches actual k = true -> k = Reg \/ k = Label).
Proof.
  assert (NL : isNumberShape actual = true -> isLabelShape actual = false).
  { intros N; destruct (isLabelShape actual) eqn:L; [| reflexivity].
    destruct (number_first _ N) as (c & r & -> & B).
    destruct (label_first _ L) as (c' & r' & E & B'); inversion E; subst; lia. }
  assert (NS : isNumberShape actual = true -> isStringShape actual = false).
  { intros N; destruct (isStringShape actual) eqn:S; [| reflexivity].
    destruct (number_first _ N) as (c & r & -> & B).
    destruct (string_first _ S) as (r' & E); inversion E; subst; lia. }
  assert (LS : isLabelShape actual = true -> isStringShape actual = false).
  { intros L; destruct (isStringShape actual) eqn:S; [| reflexivity].
    destruct (label_first _ L) as (c & r & -> & B).
    destruct (string_first _ S) as (r' & E); inversion E; subst; lia. }
  assert (RL : isRegisterShape actual = true -> isLabelShape actual = true)
    by apply register_is_label.
  assert (B : forall b : bool, b = false \/ b = true) by (intros []; auto).
  split; [| split; [| split]].
  - intros N; split; [| auto].
    destruct (B (isRegisterShape actual)) as [E | E]; [exact E |].
    rewrite (NL N) in RL; discriminate (RL E).
  - intros S; split; [| split].
    + destruct (B (isRegisterShape actual)) as [E | E]; [exact E |].
      rewrite (LS (RL E)) in S; discriminate.
    + destruct (B (isNumberShape actual)) as [E | E]; [exact E |].
      rewrite (NS E) in S; discriminate.
    + destruct (B (isLabelShape actual)) as [E | E]; [exact E |].
      rewrite (LS E) in S; discriminate.
  - intros L; split; [| auto].
    destruct (B (isNumberShape actual)) as [E | E]; [exact E |].
    rewrite (NL E) in L; discriminate.
  - intros R k M; destruct k; simpl in M; auto.
    + destruct (B (isNumberShape actual)) as [E | E]; [congruence |].
      rewrite (NL E) in RL; discriminate (RL R).
    + rewrite (LS (RL R)) in M; discriminate.
Qed.

Lemma operand_kinds_exclusive_witness :
  isRegisterShape (str "042") = false /\ isLabelShape (str "042") = false /\
  isStringShape (str "042") = false.
Proof.
  apply (proj1 (operand_kinds_exclusive (str "042"))).
  vm_compute; reflexivity.
Defined.

(** ** The missing-key check, key by key *)

Lemma missingKey_inj (k1 k2 : jsstring) : missingKey k1 = missingKey k2 -> k1 = k2.
Proof.
  intros H; apply (f_equal message) in H; unfold missingKey in H.
  cbn [message] in H; apply app_inv_head in H; exact H.
Qed.

(** Each required key is judged on its own: the notices are those of the
    keys the text lacks, in the order name, version, author, so a key's
    notice is present iff the key occurs nowhere in the text, and there
    are at most three notices. *)
Theorem checkMeta_per_key (text : jsstring) :
  checkMeta text =
    map missingKey (filter (fun key => negb (includes text key)) requiredKeys) /\
  (forall key, In key requiredKeys ->
     (In (missingKey key) (checkMeta text) <-> ~ occursIn key text)) /\
  (length (checkMeta text) <= 3)%nat.
Proof.
  assert (E : checkMeta text =
              map missingKey (filter (fun key => negb (includes text key)) requiredKeys)).
  { unfold checkMeta, requiredKeys; simpl.
    destruct (includes text (str "meta.name")), (includes text (str "meta.version")),
      (includes text (str "meta.author")); reflexivity. }
  split; [exact E | split].
  - intros key Ik; rewrite E, <- includes_occursIn; split.
    + intros I; apply in_map_iff in I; destruct I as (k & Ek & I).
      apply missingKey_inj in Ek; subst k; apply filter_In in I.
      destruct I as [_ I]; intros T; rewrite T in I; discriminate.
    + intros NI; apply in_map, filter_In; split;
        [exact Ik | destruct (includes text key); [contradiction NI |]; reflexivity].
  - rewrite E, length_map.
    pose proof (filter_length_le (fun key => negb (includes text key)) requiredKeys) as L.
    exact L.
Qed.

Lemma checkMeta_per_key_witness :
  In (missingKey (str "meta.author")) (checkMeta (str "meta.name 'x'")) <->
  ~ occursIn (str "meta.author") (str "meta.name 'x'").
Proof.
  apply (proj1 (proj2 (checkMeta_per_key (str "meta.name 'x'"))) (str "meta.author")).
  simpl; auto.
Defined.

(** ** Trimming *)

Lemma trimEnd_last (s body : jsstring) (c : CodeUnit) :
  trimEnd s = body ++ [c] -> isSpace c = false.
Proof.
  revert body; induction s as [|x s IH]; simpl; intros body H.
  - destruct body; discriminate.
  - destruct (trimEnd s) as [|k kept] eqn:T.
    + destruct (isSpace x) eqn:Sp; [destruct body; discriminate |].
      destruct body as [|b [|b' body]]; inversion H; subst; exact Sp.
    + destruct body as [|b body]; [inversion H |].
      inversion H; subst; apply (IH body); assumption.
Qed.

Lemma trimEnd_idempotent (s : jsstring) : trimEnd (trimEnd s) = trimEnd s.
Proof.
  induction s as [|c s IH]; simpl; [reflexivity |].
  destruct (trimEnd s) as [|k kept] eqn:T.
  - destruct (isSpace c) eqn:Sp; simpl; [reflexivity | rewrite Sp; reflexivity].
  - cbn [trimEnd]; cbn [trimEnd] in IH; rewrite IH; reflexivity.
Qed.

Lemma trimStart_all_space (s : jsstring) :
  trimStart s = [] <-> forallb isSpace s = true.
Proof.
  induction s as [|c s IH]; simpl; [tauto |].
  destruct (isSpace c); simpl; [exact IH | split; discriminate].
Qed.

Lemma trim_empty_iff (s : jsstring) : trim s = [] <-> forallb isSpace s = true.
Proof.
  rewrite <- trimStart_all_space; unfold trim; split.
  - intros H; destruct (trimStart_head s) as [E | (c & rest & E & Sp)]; [exact E |].
    rewrite E in H; destruct (trimEnd_head c rest Sp) as (kept & K).
    rewrite K in H; discriminate.
  - intros ->; reflexivity.
Qed.

(** [trim] cuts white space, and only white space, off both ends: the
    line is the trimmed line between two runs of white space; the
    trimmed line neither starts nor ends with white space, is empty
    exactly for a line of white space only, and trimming it again
    changes nothing. *)
Theorem trim_strips_only_white_space (s : jsstring) :
  (exists pre post,
      s = pre ++ trim s ++ post /\
      forallb isSpace pre = true /\ forallb isSpace post = true) /\
  (forall c rest, trim s = c :: rest -> isSpace c = false) /\
  (forall body c, trim s = body ++ [c] -> isSpace c = false) /\
  (trim s = [] <-> forallb isSpace s = true) /\
  trim (trim s) = trim s.
Proof.
  split; [| split; [| split; [| split]]].
  - destruct (trimStart_split s) as (pre & E & F).
    destruct (trimEnd_split (trimStart s)) as (post & E' & F').
    exists pre, post; unfold trim; rewrite <- E', <- E; auto.
  - intros c rest H; destruct (trim_head s) as [E | (c' & rest' & E & Sp)];
      rewrite E in H; [discriminate | inversion H; subst; exact Sp].
  - intros body c; unfold trim; apply trimEnd_last.
  - apply trim_empty_iff.
  - destruct (trim_head s) as [E | (c & rest & E & Sp)]; rewrite E;
      [reflexivity |].
    unfold trim at 1; simpl; rewrite Sp, <- E; unfold trim.
    apply trimEnd_idempotent.
Qed.

Lemma trim_strips_only_white_space_witness :
  isSpace 120 = false.
Proof.
  apply (proj1 (proj2 (trim_strips_only_white_space (str "  x y  "))) 120 (str " y")).
  vm_compute; reflexivity.
Defined.

(** ** Lines *)

Lemma join_cons (sep l : jsstring) (ls : list jsstring) :
  ls <> [] -> join sep (l :: ls) = l ++ sep ++ join sep ls.
Proof. destruct ls; [contradiction | reflexivity]. Qed.

Lemma join_push (sep l : jsstring) (c : CodeUnit) (ls : list jsstring) :
  join sep ((c :: l) :: ls) = c :: join sep (l :: ls).
Proof. destruct ls; reflexivity. Qed.

Lemma splitFacts_all (n : nat) :
  forall text : jsstring, (length text <= n)%nat -> splitFacts text.
Proof.
  induction n as [|n IH]; intros text L.
  - destruct text; [| simpl in L; lia].
    unfold splitFacts; simpl; repeat split; try discriminate; auto.
    intros l c [<- | []] [].
  - destruct text as [|c rest].
    { unfold splitFacts; simpl; repeat split; try discriminate; auto.
      intros l x [<- | []] []. }
    simpl in L.
    destruct (IH rest ltac:(lia)) as (NE & NL & Len & J & Sub).
    unfold splitFacts; cbn [split count_occ lfOnly].
    destruct (N.eqb_spec c 10) as [-> | Nc].
    + destruct (N.eq_dec 10 10) as [_ | C]; [| contradiction].
      repeat split.
      * discriminate.
      * constructor; [intros [] | exact NL].
      * simpl; rewrite Len; reflexivity.
      * rewrite join_cons by exact NE; simpl; rewrite J.
        destruct rest; reflexivity.
      * intros l x [<- | I] Ix; [destruct Ix | right; exact (Sub l x I Ix)].
    + destruct (N.eq_dec c 10) as [C | _]; [contradiction |].
      destruct rest as [|d rest'].
      { simpl; repeat split; try discriminate; auto.
        - repeat constructor; intros [E | []]; auto.
        - intros l x [<- | []] Ix; exact Ix. }
      destruct ((c =? 13) && (d =? 10)) eqn:CR.
      * apply andb_prop in CR; destruct CR as [C13 D10].
        apply N.eqb_eq in C13, D10; subst c d.
        simpl in L.
        destruct (IH rest' ltac:(lia)) as (NE' & NL' & Len' & J' & Sub').
        repeat split.
        -- discriminate.
        -- constructor; [intros [] | exact NL'].
        -- simpl; rewrite Len'; reflexivity.
        -- rewrite join_cons by exact NE'; simpl; rewrite J'.
           destruct rest'; reflexivity.
        -- intros l x [<- | I] Ix; [destruct Ix | right; right; exact (Sub' l x I Ix)].
      * destruct (split (d :: rest')) as [|l ls] eqn:Sp; [contradiction |].
        repeat split.
        -- discriminate.
        -- inversion NL as [|? ? Hl Hls]; subst; constructor; [| exact Hls].
           intros [E | I]; [apply Nc; exact E | exact (Hl I)].
        -- simpl; simpl in Len; exact Len.
        -- rewrite join_push, J; reflexivity.
        -- intros l' x [<- | I] Ix.
           ++ destruct Ix as [<- | Ix]; [left; reflexivity |].
              right; exact (Sub l x (or_introl eq_refl) Ix).
           ++ right; exact (Sub l' x (or_intror I) Ix).
Qed.

Lemma lfOnly_no_CR (text : jsstring) : ~ In 13 text -> lfOnly text = text.
Proof.
  induction text as [|c rest IH]; [reflexivity |]; intros NI.
  cbn [lfOnly]; destruct rest as [|d rest']; [reflexivity |].
  destruct (N.eqb_spec c 13) as [-> | Nc]; [exfalso; apply NI; left; reflexivity |].
  cbn [andb]; rewrite IH; [reflexivity | intros I; apply NI; right; exact I].
Qed.

(** [split] cuts the text at its line ends and keeps everything else:
    the result is never empty, has one line more than the text has LF,
    no line holds an LF, every character of a line is one of the text,
    and the lines joined by LF give the text back with its CR LF pairs
    turned into LF, so a text without CR comes back unchanged. *)
Theorem split_keeps_the_text (text : jsstring) :
  split text <> [] /\
  length (split text) = S (count_occ N.eq_dec text 10) /\
  Forall (fun l => ~ In 10 l) (split text) /\
  (forall l c, In l (split text) -> In c l -> In c text) /\
  join [10] (split text) = lfOnly text /\
  (~ In 13 text -> join [10] (split text) = text).
Proof.
  destruct (splitFacts_all (length text) text (le_n _)) as (NE & NL & Len & J & Sub).
  repeat split; auto.
  intros NI; rewrite J; apply lfOnly_no_CR; exact NI.
Qed.

Lemma split_keeps_the_text_witness :
  join [10] (split (str "a b")) = str "a b".
Proof.
  apply (proj2 (proj2 (proj2 (proj2 (proj2 (split_keeps_the_text (str "a b"))))))).
  vm_compute; intuition discriminate.
Defined.

(** ** Tokens *)

Lemma throughQuote_form (s body after : jsstring) :
  throughQuote s = Some (body, after) ->
  exists middle,
    body = middle ++ [quote] /\
    forallb (fun x => negb (x =? quote)) middle = true.
Proof.
  revert body after; induction s as [|c s IH]; simpl; intros body after H;
    [discriminate |].
  destruct (c =? quote) eqn:Q.
  - inversion H; subst; apply N.eqb_eq in Q; subst c; exists []; auto.
  - destruct (throughQuote s) as [[b a]|]; [| discriminate].
    inversion H; subst; destruct (IH b after eq_refl) as (middle & -> & F).
    exists (c :: middle); simpl; rewrite Q, F; auto.
Qed.

Lemma forallb_rev {A : Type} (p : A -> bool) (l : list A) :
  forallb p l = true -> forallb p (rev l) = true.
Proof.
  rewrite !forallb_forall; intros H x I; apply H, in_rev; exact I.
Qed.

Lemma nonSpaceRun_bare (s : jsstring) : isBareToken (fst (nonSpaceRun s)) = true.
Proof.
  induction s as [|c s IH]; simpl; [reflexivity |].
  destruct (isSpace c) eqn:Sp; [reflexivity |].
  destruct (nonSpaceRun s) as [run after]; simpl in *.
  unfold isBareToken in *; simpl; rewrite Sp, IH; reflexivity.
Qed.

Lemma matchNonSpace_bare (s tok after : jsstring) :
  matchNonSpace s = Some (tok, after) ->
  (isQuotedToken tok || isBareToken tok) = true.
Proof.
  unfold matchNonSpace; intros H; pose proof (nonSpaceRun_bare s) as B.
  destruct (nonSpaceRun s) as [[|x run] aft]; [discriminate |].
  inversion H; subst; cbn [fst] in B; rewrite B; apply orb_true_r.
Qed.

Lemma matchTokenAt_form (s tok after : jsstring) :
  matchTokenAt s = Some (tok, after) ->
  (isQuotedToken tok || isBareToken tok) = true.
Proof.
  unfold matchTokenAt; destruct (matchQuoted s) as [[t a]|] eqn:MQ;
    [| apply matchNonSpace_bare].
  intros H; inversion H; subst; unfold matchQuoted in MQ.
  destruct s as [|c s]; [discriminate |].
  destruct (c =? quote) eqn:Q; [| discriminate].
  destruct (throughQuote s) as [[b a]|] eqn:T; [| discriminate].
  inversion MQ; subst.
  destruct (throughQuote_form s b after T) as (middle & -> & F).
  unfold isQuotedToken; rewrite Q, rev_app_distr; cbn [rev app andb].
  rewrite N.eqb_refl; cbn [andb]; apply orb_true_iff; left.
  apply forallb_rev; exact F.
Qed.

Lemma matchTokenAt_none (c : CodeUnit) (rest : jsstring) :
  matchTokenAt (c :: rest) = None -> isSpace c = true.
Proof.
  intros H; destruct (isSpace c) eqn:Sp; [reflexivity |].
  destruct (matchTokenAt_nonspace c rest Sp) as (t & a & E).
  rewrite E in H; discriminate.
Qed.

Lemma interleave_push (c : CodeUnit) (g : jsstring) (gaps toks : list jsstring) :
  interleave ((c :: g) :: gaps) toks = c :: interleave (g :: gaps) toks.
Proof. destruct toks; reflexivity. Qed.

Lemma matchTokens_cover (fuel : nat) :
  forall s : jsstring,
    (length s <= fuel)%nat ->
    let toks := matchTokens fuel s in
    (exists gaps,
        length gaps = S (length toks) /\
        s = interleave gaps toks /\
        Forall (fun g => forallb isSpace g = true) gaps) /\
    Forall (fun t => t <> [] /\ (isQuotedToken t || isBareToken t) = true) toks.
Proof.
  induction fuel as [|fuel IH]; intros s L.
  - destruct s; [| simpl in L; lia]; simpl; split; [| constructor].
    exists [[]]; repeat split; repeat constructor.
  - destruct s as [|c rest].
    { simpl; split; [| constructor].
      exists [[]]; repeat split; repeat constructor. }
    cbn [matchTokens]; simpl in L.
    destruct (matchTokenAt (c :: rest)) as [[tok after]|] eqn:M.
    + pose proof (matchTokenAt_form _ _ _ M) as Fm.
      apply matchTokenAt_app in M; destruct M as [E NE].
      assert (La : (length after <= fuel)%nat).
      { apply (f_equal (@length _)) in E; rewrite length_app in E.
        destruct tok; [contradiction | simpl in E; lia]. }
      destruct (IH after La) as ((gaps & Lg & Eg & Fg) & Ft).
      split; [| constructor; auto].
      exists ([] :: gaps); repeat split.
      * simpl; rewrite Lg; reflexivity.
      * simpl; rewrite <- Eg; exact E.
      * constructor; [reflexivity | exact Fg].
    + apply matchTokenAt_none in M.
      destruct (IH rest ltac:(lia)) as ((gaps & Lg & Eg & Fg) & Ft).
      split; [| exact Ft].
      destruct gaps as [|g gaps]; [simpl in Lg; lia |].
      exists ((c :: g) :: gaps); repeat split.
      * exact Lg.
      * rewrite interleave_push, <- Eg; reflexivity.
      * inversion Fg; subst; constructor; [simpl; rewrite M; assumption | assumption].
Qed.

(** The tokenizer drops white space only: the line reads back as its
    tokens, in order, with a run of white space (possibly empty) before
    each and after the last; every token is non-empty and is either a
    span between two quotes with no quote inside or free of white
    space. *)
Theorem tokens_cover_the_line (line : jsstring) :
  (exists gaps,
      length gaps = S (length (lineTokens line)) /\
      line = interleave gaps (lineTokens line) /\
      Forall (fun g => forallb isSpace g = true) gaps) /\
  Forall (fun t => t <> [] /\ (isQuotedToken t || isBareToken t) = true)
         (lineTokens line).
Proof. exact (matchTokens_cover (length line) line (le_n _)). Qed.

(** ** Blank lines and blank documents *)

Lemma isWord_not_space (c : CodeUnit) : isWord c = true -> isSpace c = false.
Proof.
  unfold isWord; intros H.
  assert (B : 48 <= c <= 57 \/ 65 <= c <= 90 \/ 97 <= c <= 122 \/ c = 95).
  { apply orb_prop in H; destruct H as [H | H];
      [apply orb_prop in H; destruct H as [H | H] |].
    - apply isLetter_bounds in H; lia.
    - apply isDigit_bounds in H; lia.
    - apply N.eqb_eq in H; lia. }
  unfold isSpace.
  repeat match goal with
         | |- context [?a <=? ?b] =>
             destruct (N.leb_spec a b); try lia
         | |- context [?a =? ?b] =>
             destruct (N.eqb_spec a b); try lia
         end; reflexivity.
Qed.

Lemma checkLine_blank (up : jsstring -> jsstring) (lineNum : nat)
  (rawLine : jsstring) :
  forallb isSpace rawLine = true -> checkLine up lineNum rawLine = [].
Proof.
  intros H; apply trim_empty_iff in H; unfold checkLine; rewrite H; reflexivity.
Qed.

Lemma checkLinesFrom_blank (up : jsstring -> jsstring) (lines : list jsstring) :
  Forall (fun l => forallb isSpace l = true) lines ->
  forall lineNum, checkLinesFrom up lineNum lines = [].
Proof.
  induction 1 as [|l lines Hl _ IH]; intros lineNum; simpl; [reflexivity |].
  rewrite (checkLine_blank up lineNum l Hl), IH; reflexivity.
Qed.

Lemma no_members_nil {A : Type} (l : list A) : (forall x, ~ In x l) -> l = [].
Proof.
  destruct l as [|x l]; [reflexivity |].
  intros H; destruct (H x (or_introl eq_refl)).
Qed.

(** White space carries no finding of its own: a line of white space
    only yields nothing, whatever its number, and a document of white
    space only (the empty one included) yields exactly the three
    missing-key notices. *)
Theorem blank_text_yields_only_missing_keys (up : jsstring -> jsstring) :
  (forall (lineNum : nat) (rawLine : jsstring),
      forallb isSpace rawLine = true -> checkLine up lineNum rawLine = []) /\
  (forall text : jsstring,
      forallb isSpace text = true ->
      checkRegisters text = [] /\ checkLines up text = [] /\
      computeDiagnostics up text = map missingKey requiredKeys).
Proof.
  split; [apply checkLine_blank |].
  intros text H; rewrite forallb_forall in H.
  assert (R : checkRegisters text = []).
  { unfold checkRegisters.
    replace (registerMatches text) with (@nil (nat * jsstring)); [reflexivity |].
    symmetry; apply no_members_nil; intros [i w] I.
    apply registerMatches_spec in I; destruct I as (Sh & pre & post & E & _).
    pose proof (register_chars_word w Sh) as F.
    destruct w as [|c w]; [discriminate |].
    inversion F; subst.
    assert (Sp : isSpace c = true)
      by (apply H, in_or_app; right; left; reflexivity).
    rewrite (isWord_not_space c) in Sp; [discriminate | assumption]. }
  assert (C : checkLines up text = []).
  { unfold checkLines; apply checkLinesFrom_blank.
    destruct (splitFacts_all (length text) text (le_n _)) as (_ & _ & _ & _ & Sub).
    apply Forall_forall; intros l Il; apply forallb_forall; intros c Ic.
    exact (H c (Sub l c Il Ic)). }
  split; [exact R | split; [exact C |]].
  unfold computeDiagnostics; rewrite R, C, !app_nil_r.
  unfold checkMeta, requiredKeys; simpl.
  assert (K : forall key, hd_error key = Some 109 -> includes text key = true -> False).
  { intros [|m rest] Hd I; inversion Hd; subst.
    apply includes_occursIn in I; destruct I as (pre & post & E).
    assert (Sp : isSpace 109 = true)
      by (apply H; rewrite E; apply in_or_app; right; left; reflexivity).
    discriminate. }
  destruct (includes text (str "meta.name")) eqn:E1;
    [destruct (K (str "meta.name") eq_refl E1) |].
  destruct (includes text (str "meta.version")) eqn:E2;
    [destruct (K (str "meta.version") eq_refl E2) |].
  destruct (includes text (str "meta.author")) eqn:E3;
    [destruct (K (str "meta.author") eq_refl E3) |].
  reflexivity.
Qed.

Lemma blank_text_yields_only_missing_keys_witness :
  checkLine asciiOnly 5 (str "   ") = [].
Proof.
  apply (proj1 (blank_text_yields_only_missing_keys asciiOnly) 5%nat (str "   ")).
  vm_compute; reflexivity.
Defined.

(** ** Where the per-line findings lie *)

Lemma trim_split (s : jsstring) :
  exists pre post, s = pre ++ trim s ++ post.
Proof.
  destruct (trimStart_split s) as (pre & E & _).
  destruct (trimEnd_split (trimStart s)) as (post & E' & _).
  exists pre, post; unfold trim; rewrite <- E', <- E; reflexivity.
Qed.

Lemma trim_length (s : jsstring) : (length (trim s) <= length s)%nat.
Proof.
  destruct (trim_split s) as (pre & post & E).
  apply (f_equal (@length _)) in E; rewrite !length_app in E; lia.
Qed.

Lemma map_flat_map {A B C : Type} (f : B -> C) (g : A -> list B) (l : list A) :
  map f (flat_map g l) = flat_map (fun x => map f (g x)) l.
Proof.
  induction l as [|x l IH]; simpl; [reflexivity |].
  rewrite map_app, IH; reflexivity.
Qed.

Lemma lineRange_shift (n k len : nat) :
  lineRange (n + k) len = shiftRange k (lineRange n len).
Proof. reflexivity. Qed.

Lemma checkLine_shift (up : jsstring -> jsstring) (n k : nat) (rawLine : jsstring) :
  checkLine up (n + k) rawLine = map (shiftLines k) (checkLine up n rawLine).
Proof.
  unfold checkLine.
  destruct (trim rawLine) as [|c l]; [reflexivity |].
  destruct (lineTokens (c :: l)) as [|firstPart args]; [reflexivity |].
  destruct (lookup (toUpperCase up firstPart)) as [signature|].
  - destruct (negb (length args =? length signature)%nat).
    + unfold wrongArity, newDiagnostic, shiftLines; simpl.
      rewrite !newRange4_line; reflexivity.
    + rewrite map_flat_map; apply flat_map_ext; intros i.
      unfold checkOperand; destruct (operandValid _ _); [reflexivity |].
      unfold invalidArgument, newDiagnostic, shiftLines; simpl.
      rewrite !newRange4_line; reflexivity.
  - destruct (startsWith firstPart (str "#")); [reflexivity |].
    destruct (arrayIncludes metaKeys firstPart); [reflexivity |].
    destruct (startsWith firstPart (str ".")); [reflexivity |].
    unfold invalidInstruction, newDiagnostic, shiftLines; simpl.
    rewrite !newRange4_line; reflexivity.
Qed.

Lemma checkLinesFrom_shift (up : jsstring -> jsstring) (k : nat)
  (lines : list jsstring) :
  forall n, checkLinesFrom up (n + k) lines =
            map (shiftLines k) (checkLinesFrom up n lines).
Proof.
  induction lines as [|l lines IH]; intros n; simpl; [reflexivity |].
  rewrite map_app, checkLine_shift; f_equal; exact (IH (S n)).
Qed.

Lemma checkLine_range (up : jsstring -> jsstring) (n : nat) (rawLine : jsstring)
  (d : Diagnostic) :
  In d (checkLine up n rawLine) ->
  exists len, range d = lineRange n len /\ (len <= length rawLine)%nat.
Proof.
  pose proof (trim_length rawLine) as TL.
  unfold checkLine; destruct (trim rawLine) as [|c l] eqn:T; [intros [] |].
  destruct (lineTokens_first rawLine) as (fp & ar & after & Tk & E & _);
    [rewrite T; discriminate |].
  rewrite T in Tk, E; rewrite Tk.
  assert (Lf : (length fp <= length rawLine)%nat).
  { apply (f_equal (@length _)) in E; rewrite length_app in E; lia. }
  destruct (lookup (toUpperCase up fp)) as [signature|].
  - destruct (negb (length ar =? length signature)%nat).
    + intros [<- | []]; exists (length (c :: l)); split; [| exact TL].
      unfold wrongArity, newDiagnostic; simpl range; apply newRange4_line.
    + intros I; apply in_flat_map in I; destruct I as (i & _ & I).
      apply checkOperand_In in I; subst d.
      exists (length (c :: l)); split; [| exact TL].
      unfold invalidArgument, newDiagnostic; simpl range; apply newRange4_line.
  - destruct (startsWith fp (str "#")); [intros [] |].
    destruct (arrayIncludes metaKeys fp); [intros [] |].
    destruct (startsWith fp (str ".")); [intros [] |].
    intros [<- | []]; exists (length fp); split; [| exact Lf].
    unfold invalidInstruction, newDiagnostic; simpl range; apply newRange4_line.
Qed.

Lemma checkLinesFrom_located (up : jsstring -> jsstring) (lines : list jsstring) :
  forall (n : nat) (d : Diagnostic),
    In d (checkLinesFrom up n lines) ->
    exists l len,
      (l < length lines)%nat /\
      In d (checkLine up (n + l) (nth l lines [])) /\
      range d = lineRange (n + l) len /\
      (len <= length (nth l lines []))%nat.
Proof.
  induction lines as [|x lines IH]; simpl; intros n d I; [destruct I |].
  apply in_app_or in I; destruct I as [I | I].
  - destruct (checkLine_range up n x d I) as (len & R & L).
    exists 0%nat, len; rewrite Nat.add_0_r; repeat split; auto; lia.
  - destruct (IH (S n) d I) as (l & len & Hl & Il & R & L).
    exists (S l), len; rewrite Nat.add_succ_r; repeat split; auto; lia.
Qed.

Lemma checkLinesFrom_sorted (up : jsstring -> jsstring) (lines : list jsstring) :
  forall n,
    Forall (fun d => (n <= line (start (range d)))%nat) (checkLinesFrom up n lines) /\
    StronglySorted le (map (fun d => line (start (range d)))
                           (checkLinesFrom up n lines)).
Proof.
  induction lines as [|x lines IH]; intros n; simpl;
    [split; constructor |].
  destruct (IH (S n)) as [Ge So].
  assert (Here : Forall (fun d => line (start (range d)) = n) (checkLine up n x)).
  { apply Forall_forall; intros d I.
    destruct (checkLine_range up n x d I) as (len & -> & _); reflexivity. }
  split.
  - apply Forall_app; split.
    + eapply Forall_impl; [| exact Here]; simpl; intros d ->; apply le_n.
    + eapply Forall_impl; [| exact Ge]; simpl; intros d H; lia.
  - rewrite map_app.
    induction (checkLine up n x) as [|d ds IHd]; simpl; [exact So |].
    inversion Here as [|? ? Hd Hds]; subst.
    constructor; [exact (IHd Hds) |].
    apply Forall_app; split; apply Forall_map.
    + eapply Forall_impl; [| exact Hds]; simpl; intros d' ->; lia.
    + eapply Forall_impl; [| exact Ge]; simpl; intros d' H'; lia.
Qed.

(** Every per-line finding sits on the line that caused it: its range
    runs from column 0 of an existing line of the text to a column no
    greater than the length of that line, and it is among the findings
    of that line; the findings come in line order.  The line number
    enters a finding through its range alone: the same lines checked
    from line [n + k] on give the findings from line [n] on moved down
    by [k]. *)
Theorem line_findings_are_located (up : jsstring -> jsstring) :
  (forall (text : jsstring) (d : Diagnostic),
      In d (checkLines up text) ->
      exists l len,
        (l < length (split text))%nat /\
        In d (checkLine up l (nth l (split text) [])) /\
        range d = lineRange l len /\
        (len <= length (nth l (split text) []))%nat) /\
  (forall text : jsstring,
      StronglySorted le (map (fun d => line (start (range d)))
                             (checkLines up text))) /\
  (forall (n k : nat) (lines : list jsstring),
      checkLinesFrom up (n + k) lines =
        map (shiftLines k) (checkLinesFrom up n lines)).
Proof.
  split; [| split].
  - intros text d I; exact (checkLinesFrom_located up (split text) 0 d I).
  - intros text; exact (proj2 (checkLinesFrom_sorted up (split text) 0)).
  - intros n k lines; apply checkLinesFrom_shift.
Qed.

Lemma line_findings_are_located_witness :
  exists l len,
    (l < length (split (str "hlt 1")))%nat /\
    In (wrongArity 0 (str "hlt 1") (str "HLT") [] [str "1"])
       (checkLine asciiOnly l (nth l (split (str "hlt 1")) [])) /\
    range (wrongArity 0 (str "hlt 1") (str "HLT") [] [str "1"]) = lineRange l len /\
    (len <= length (nth l (split (str "hlt 1")) []))%nat.
Proof.
  apply (proj1 (line_findings_are_located asciiOnly) (str "hlt 1")).
  vm_compute; left; reflexivity.
Defined.

(** ** Order of the register matches *)

Lemma execRegisters_ordered (fuel : nat) :
  forall (s : jsstring) (before : option CodeUnit) (index : nat),
    Forall (fun m => (index <= fst m)%nat) (execRegisters fuel before index s) /\
    StronglySorted (fun a b => (fst a + length (snd a) <= fst b)%nat)
                   (execRegisters fuel before index s).
Proof.
  induction fuel as [|fuel IH]; intros s before index; simpl;
    [split; constructor |].
  destruct s as [|c rest]; [split; constructor |].
  destruct (matchRegisterAt before (c :: rest)) as [m|].
  - destruct (IH (skipn (length m) (c :: rest)) (lastOr before m)
                 (index + length m)%nat) as [Ge So].
    split.
    + constructor; [simpl; lia |].
      eapply Forall_impl; [| exact Ge]; simpl; intros a H; lia.
    + constructor; [exact So | exact Ge].
  - destruct (IH rest (Some c) (S index)) as [Ge So]; split; [| exact So].
    eapply Forall_impl; [| exact Ge]; simpl; intros a H; lia.
Qed.

(** The register scan reports left to right and never twice over the
    same characters: the matches are in increasing offset order, each
    ending before the next begins; each is two or three characters of
    the text at its offset; and the scan has at most one finding per
    match. *)
Theorem register_matches_in_text_order (text : jsstring) :
  StronglySorted (fun a b => (fst a + length (snd a) <= fst b)%nat)
                 (registerMatches text) /\
  Forall (fun m =>
            (2 <= length (snd m) <= 3)%nat /\
            (fst m + length (snd m) <= length text)%nat /\
            firstn (length (snd m)) (skipn (fst m) text) = snd m)
         (registerMatches text) /\
  (length (checkRegisters text) <= length (registerMatches text))%nat.
Proof.
  split; [exact (proj2 (execRegisters_ordered (length text) text None 0)) | split].
  - apply Forall_forall; intros [i w] I; apply registerMatches_spec in I.
    destruct I as (Sh & pre & post & -> & <- & _); simpl.
    split; [| split].
    + destruct w as [|r [|d1 [|d2 [|x w]]]]; simpl in Sh; try discriminate;
        simpl; lia.
    + rewrite !length_app; lia.
    + rewrite skipn_length_app, firstn_length_app; reflexivity.
  - unfold checkRegisters; induction (registerMatches text) as [|m ms IH];
      simpl; [lia |].
    rewrite length_app; unfold checkRegisterMatch at 1.
    destruct (outOfRange _); simpl; lia.
Qed.

(** ** Quick fixes *)

Lemma flat_map_nil {A B : Type} (f : A -> list B) (l : list A) :
  (forall x, In x l -> f x = []) -> flat_map f l = [].
Proof.
  induction l as [|x l IH]; simpl; intros H; [reflexivity |].
  rewrite (H x (or_introl eq_refl)), IH; [reflexivity |].
  intros y I; apply H; right; exact I.
Qed.

Lemma quickFixFor_no_code (document : TextDocument) (d : Diagnostic) :
  code d = None -> quickFixFor document d = [].
Proof. intros H; unfold quickFixFor; rewrite H; reflexivity. Qed.

Lemma replaceFirst_prefix (p k : jsstring) : replaceFirst (p ++ k) p [] = k.
Proof.
  assert (S : startsWith (p ++ k) p = true)
    by (apply startsWith_prefix; exists k; reflexivity).
  destruct (p ++ k) as [|c r] eqn:E; simpl; rewrite S; rewrite <- E;
    apply skipn_length_app.
Qed.

Lemma quickFixFor_missingKey (document : TextDocument) (key : jsstring) :
  startsWith key (str "meta") = true ->
  quickFixFor document (missingKey key) = [insertKeyAction document key].
Proof.
  intros M; unfold quickFixFor, missingKey; cbn [code].
  assert (S : startsWith (str "missing_" ++ key) (str "missing_meta") = true).
  { apply startsWith_prefix in M; destruct M as (post & ->).
    apply startsWith_prefix; exists post; reflexivity. }
  rewrite S, replaceFirst_prefix; reflexivity.
Qed.

Lemma provideCodeActions_validation (up : jsstring -> jsstring)
  (document : TextDocument) (range : Range) (text : jsstring) :
  provideCodeActions document range (computeDiagnostics up text) =
    map (insertKeyAction document)
        (filter (fun key => negb (includes text key)) requiredKeys).
Proof.
  unfold provideCodeActions, computeDiagnostics.
  rewrite !flat_map_app.
  rewrite (flat_map_nil _ (checkRegisters text))
    by (intros d I; apply quickFixFor_no_code;
        exact (proj2 (checkRegisters_Error text d I))).
  rewrite (flat_map_nil _ (checkLines up text))
    by (intros d I; apply quickFixFor_no_code;
        exact (proj2 (checkLinesFrom_Error up _ _ d I))).
  rewrite !app_nil_r; unfold checkMeta, requiredKeys.
  cbn [flat_map filter map app].
  destruct (includes text (str "meta.name")), (includes text (str "meta.version")),
    (includes text (str "meta.author")); cbn [negb app map];
    rewrite ?quickFixFor_missingKey by reflexivity; reflexivity.
Qed.

(** The quick fixes answer the validator's notices one for one: for the
    findings of a validation run the provider offers exactly one action
    per missing key, in the order name, version, author, and none for
    any Error; the action for a key inserts, at the very start of the
    document, the key, its default between quotes and a line break. *)
Theorem quick_fixes_match_missing_keys (up : jsstring -> jsstring)
  (document : TextDocument) (range : Range) (text : jsstring) :
  provideCodeActions document range (computeDiagnostics up text) =
    map (insertKeyAction document)
        (filter (fun key => negb (includes text key)) requiredKeys) /\
  map fixText requiredKeys =
    [ str "meta.name 'Program'" ++ [10];
      str "meta.version '0.1'" ++ [10];
      str "meta.author 'Me'" ++ [10] ] /\
  (forall d, In d (computeDiagnostics up text) -> severity d = Error ->
             provideCodeActions document range [d] = []).
Proof.
  split; [| split; [vm_compute; reflexivity |]].
  - apply provideCodeActions_validation.
  - intros d I E; unfold provideCodeActions; simpl; rewrite app_nil_r.
    apply quickFixFor_no_code.
    unfold computeDiagnostics in I; apply in_app_or in I; destruct I as [I | I].
    + unfold checkMeta in I; apply in_flat_map in I; destruct I as (k & _ & I).
      destruct (negb (includes text k)); [| destruct I].
      destruct I as [<- | []]; discriminate.
    + apply in_app_or in I; destruct I as [I | I].
      * exact (proj2 (checkRegisters_Error text d I)).
      * exact (proj2 (checkLinesFrom_Error up _ _ d I)).
Qed.

Lemma quick_fixes_match_missing_keys_witness :
  provideCodeActions {| uri := str "a.cnvl"; languageId := str "carnival";
                        getText := str "foo" |}
                     (lineRange 0 0)
                     [invalidInstruction 0 (str "foo") (str "FOO")] = [].
Proof.
  apply (proj2 (proj2 (quick_fixes_match_missing_keys asciiOnly
           {| uri := str "a.cnvl"; languageId := str "carnival"; getText := str "foo" |}
           (lineRange 0 0) (str "foo")))).
  - vm_compute; auto.
  - reflexivity.
Defined.

(** ** A line put in front of a document *)

Lemma startsWith_app_LF (k : jsstring) :
  ~ In 10 k -> forall a t, startsWith (a ++ 10 :: t) k = startsWith a k.
Proof.
  induction k as [|p k IH]; intros NI a t; [reflexivity |].
  destruct a as [|c a]; cbn [app startsWith].
  - replace (10 =? p) with false; [reflexivity |].
    symmetry; apply N.eqb_neq; intros E; apply NI; left; symmetry; exact E.
  - rewrite IH; [reflexivity | intros I; apply NI; right; exact I].
Qed.

Lemma includes_cons (c : CodeUnit) (s k : jsstring) :
  includes (c :: s) k = startsWith (c :: s) k || includes s k.
Proof. reflexivity. Qed.

Lemma includes_app_LF (k a t : jsstring) :
  ~ In 10 k -> k <> [] ->
  includes (a ++ 10 :: t) k = includes a k || includes t k.
Proof.
  intros NI NE; induction a as [|c a IH].
  - change ([] ++ 10 :: t) with (10 :: t); rewrite includes_cons.
    apply (f_equal (fun b => b || includes t k)).
    transitivity (startsWith [] k); [exact (startsWith_app_LF k NI [] t) |].
    destruct k; [contradiction | reflexivity].
  - change ((c :: a) ++ 10 :: t) with (c :: (a ++ 10 :: t)).
    rewrite !includes_cons, IH, orb_assoc.
    apply (f_equal (fun b => b || includes a k || includes t k)).
    exact (startsWith_app_LF k NI (c :: a) t).
Qed.

Lemma split_cons (c d : CodeUnit) (rest : jsstring) :
  split (c :: d :: rest) =
    if c =? 10 then [] :: split (d :: rest)
    else if (c =? 13) && (d =? 10) then [] :: split rest
         else match split (d :: rest) with
              | l :: ls => (c :: l) :: ls
              | [] => [[c]]
              end.
Proof. reflexivity. Qed.

Lemma split_prefix (body text : jsstring) :
  Forall (fun c => c <> 10 /\ c <> 13) body ->
  split (body ++ 10 :: text) = body :: split text.
Proof.
  induction 1 as [|c body [C10 C13] _ IH]; [reflexivity |].
  change ((c :: body) ++ 10 :: text) with (c :: (body ++ 10 :: text)).
  destruct (body ++ 10 :: text) as [|d rest] eqn:E;
    [destruct body; discriminate |].
  assert (IH' : split (@cons CodeUnit d rest) = body :: split text)
    by (transitivity (split (body ++ 10 :: text));
        [f_equal; symmetry; exact E | exact IH]).
  rewrite split_cons, IH'.
  replace (c =? 10) with false by (symmetry; apply N.eqb_neq; exact C10).
  replace (c =? 13) with false by (symmetry; apply N.eqb_neq; exact C13).
  reflexivity.
Qed.

Lemma prepend_lines (up : jsstring -> jsstring) (body text : jsstring) :
  Forall (fun c => c <> 10 /\ c <> 13) body ->
  checkLines up (body ++ 10 :: text) =
    checkLine up 0 body ++ map (shiftLines 1) (checkLines up text).
Proof.
  intros F; unfold checkLines; rewrite (split_prefix body text F); simpl.
  f_equal; exact (checkLinesFrom_shift up 1 (split text) 0).
Qed.

Lemma matchRegisterAt_before (b1 b2 : option CodeUnit) (s : jsstring) :
  isWordAt b1 = isWordAt b2 -> matchRegisterAt b1 s = matchRegisterAt b2 s.
Proof.
  intros E; destruct s as [|r [|d1 tl1]]; try reflexivity.
  unfold matchRegisterAt, wordBoundary; rewrite E; reflexivity.
Qed.

Lemma execRegisters_before (fuel : nat) (b1 b2 : option CodeUnit) (index : nat)
  (s : jsstring) :
  isWordAt b1 = isWordAt b2 ->
  execRegisters fuel b1 index s = execRegisters fuel b2 index s.
Proof.
  intros E; destruct fuel as [|fuel]; [reflexivity |].
  destruct s as [|c rest]; [reflexivity |]; cbn [execRegisters].
  rewrite (matchRegisterAt_before b1 b2 (c :: rest) E).
  destruct (matchRegisterAt b2 (c :: rest)) as [m|] eqn:M; [| reflexivity].
  apply matchRegisterAt_spec in M; destruct M as (post & _ & Sh & _).
  destruct m as [|x m]; [discriminate |]; reflexivity.
Qed.

Lemma execRegisters_index (fuel : nat) (k : nat) :
  forall (s : jsstring) (before : option CodeUnit) (index : nat),
    execRegisters fuel before (index + k) s =
      map (shiftMatch k) (execRegisters fuel before index s).
Proof.
  induction fuel as [|fuel IH]; intros s before index; [reflexivity |].
  destruct s as [|c rest]; [reflexivity |]; cbn [execRegisters].
  destruct (matchRegisterAt before (c :: rest)) as [m|].
  - cbn [map]; f_equal.
    replace (index + k + length m)%nat with (index + length m + k)%nat by lia.
    apply IH.
  - exact (IH rest (Some c) (S index)).
Qed.

Lemma matchRegisterAt_free (before : option CodeUnit) (c d : CodeUnit)
  (rest : jsstring) :
  isR c && isDigit d = false -> matchRegisterAt before (c :: d :: rest) = None.
Proof.
  intros H; unfold matchRegisterAt.
  rewrite <- andb_assoc, H, andb_false_r; reflexivity.
Qed.

Lemma execRegisters_skip (body text : jsstring) :
  registerFree (body ++ [10]) = true ->
  forall (fuel : nat) (before : option CodeUnit) (index : nat),
    (length (body ++ 10%N :: text) <= fuel)%nat ->
    execRegisters fuel before index (body ++ 10 :: text) =
      execRegisters (length text) None (index + (length body + 1)) text.
Proof.
  induction body as [|c body IH]; intros Free fuel before index L.
  - destruct fuel as [|fuel]; [simpl in L; lia |].
    cbn [app execRegisters].
    assert (M : matchRegisterAt before (10 :: text) = None)
      by (destruct text; [reflexivity | apply matchRegisterAt_free; reflexivity]).
    rewrite M.
    transitivity (execRegisters fuel None (S index) text);
      [apply execRegisters_before; reflexivity |].
    cbn [length]; replace (index + (0 + 1))%nat with (S index) by lia.
    simpl in L; apply execRegisters_fuel; lia.
  - destruct fuel as [|fuel]; [simpl in L; lia |].
    change ((c :: body) ++ 10 :: text) with (c :: (body ++ 10 :: text)) in *.
    cbn [execRegisters].
    assert (Fr : exists d rest, body ++ 10 :: text = d :: rest /\
                                isR c && isDigit d = false /\
                                registerFree (body ++ [10]) = true).
    { destruct body as [|d body]; simpl in Free |- *.
      - exists 10, text; repeat split; auto.
        apply andb_prop in Free; destruct Free as [Fc _].
        apply negb_true_iff in Fc; exact Fc.
      - exists d, (body ++ 10 :: text); repeat split; auto;
          apply andb_prop in Free; destruct Free as [Fc Fr];
          [apply negb_true_iff in Fc; exact Fc | exact Fr]. }
    destruct Fr as (d & rest & E & Fc & Fr).
    rewrite E at 1; rewrite (matchRegisterAt_free before c d rest Fc).
    simpl in L; rewrite (IH Fr fuel (Some c) (S index)) by lia.
    f_equal; simpl; lia.
Qed.

Lemma advance_shift (k : nat) (l : jsstring) :
  forall p, fold_left advance l (shiftPosition k p) =
            shiftPosition k (fold_left advance l p).
Proof.
  induction l as [|c l IH]; intros p; simpl; [reflexivity |].
  rewrite <- IH; f_equal; unfold advance, shiftPosition; simpl.
  destruct (c =? 10); reflexivity.
Qed.

Lemma advance_no_LF (l : jsstring) :
  Forall (fun c => c <> 10 /\ c <> 13) l ->
  forall p, fold_left advance l p =
            {| line := line p; character := character p + length l |}.
Proof.
  induction 1 as [|c l [C _] _ IH]; intros p; simpl.
  - rewrite Nat.add_0_r; destruct p; reflexivity.
  - rewrite IH; unfold advance.
    replace (c =? 10) with false by (symmetry; apply N.eqb_neq; exact C).
    simpl; f_equal; lia.
Qed.

Lemma positionAt_prefix (body text : jsstring) (i : nat) :
  Forall (fun c => c <> 10 /\ c <> 13) body ->
  positionAt (body ++ 10 :: text) (i + (length body + 1)) =
    shiftPosition 1 (positionAt text i).
Proof.
  intros F; unfold positionAt.
  replace (body ++ 10 :: text) with ((body ++ [10]) ++ text)
    by (rewrite <- app_assoc; reflexivity).
  replace (i + (length body + 1))%nat with (length (body ++ [10%N]) + i)%nat
    by (rewrite length_app; simpl; lia).
  rewrite firstn_app_2, !fold_left_app, (advance_no_LF body F); simpl.
  rewrite <- advance_shift; reflexivity.
Qed.

Lemma newRange_shift (k : nat) (a b : Position) :
  newRange (shiftPosition k a) (shiftPosition k b) = shiftRange k (newRange a b).
Proof.
  unfold newRange, isBefore, shiftPosition; simpl.
  replace (line b + k <? line a + k)%nat with (line b <? line a)%nat
    by (destruct (Nat.ltb_spec (line b) (line a)),
          (Nat.ltb_spec (line b + k) (line a + k)); try lia; reflexivity).
  replace (line b + k =? line a + k)%nat with (line b =? line a)%nat
    by (destruct (Nat.eqb_spec (line b) (line a)),
          (Nat.eqb_spec (line b + k) (line a + k)); try lia; reflexivity).
  destruct ((line b <? line a)%nat || (line b =? line a)%nat && (character b <? character a)%nat);
    reflexivity.
Qed.

Lemma flat_map_map {A B C : Type} (f : B -> list C) (g : A -> B) (l : list A) :
  flat_map f (map g l) = flat_map (fun x => f (g x)) l.
Proof.
  induction l as [|x l IH]; simpl; [reflexivity | rewrite IH; reflexivity].
Qed.

Lemma prepend_registers (body text : jsstring) :
  Forall (fun c => c <> 10 /\ c <> 13) body ->
  registerFree (body ++ [10]) = true ->
  registerMatches (body ++ 10 :: text) =
    map (shiftMatch (length body + 1)) (registerMatches text) /\
  checkRegisters (body ++ 10 :: text) = map (shiftLines 1) (checkRegisters text).
Proof.
  intros F Free.
  assert (M : registerMatches (body ++ 10 :: text) =
              map (shiftMatch (length body + 1)) (registerMatches text)).
  { unfold registerMatches at 1.
    rewrite (execRegisters_skip body text Free _ None 0 (le_n _)).
    exact (execRegisters_index (length text) (length body + 1) text None 0). }
  split; [exact M |].
  unfold checkRegisters; rewrite M, flat_map_map, map_flat_map.
  apply flat_map_ext; intros [i w].
  unfold checkRegisterMatch, shiftMatch; cbn [fst snd].
  destruct (outOfRange (parseInt (tl w))); [| reflexivity].
  unfold invalidRegister, newDiagnostic, shiftLines; cbn [map range message severity code].
  replace (i + (length body + 1) + length w)%nat
    with (i + length w + (length body + 1))%nat by lia.
  rewrite !(positionAt_prefix body text _ F), newRange_shift; reflexivity.
Qed.

(** Lines are checked one by one: a line free of LF and CR put in front
    of a text becomes line 0, its own findings come first and the
    per-line findings of the text follow moved down one line; a key
    (free of LF) occurs in the new text iff it occurs in the line or in
    the old text; and when no [r] of the line is followed by a digit,
    the register findings of the text are kept, moved down one line. *)
Theorem prepending_a_line (up : jsstring -> jsstring) (body text : jsstring) :
  Forall (fun c => c <> 10 /\ c <> 13) body ->
  split (body ++ 10 :: text) = body :: split text /\
  checkLines up (body ++ 10 :: text) =
    checkLine up 0 body ++ map (shiftLines 1) (checkLines up text) /\
  (forall k, ~ In 10 k -> k <> [] ->
     includes (body ++ 10 :: text) k = includes body k || includes text k) /\
  (registerFree (body ++ [10]) = true ->
   registerMatches (body ++ 10 :: text) =
     map (shiftMatch (length body + 1)) (registerMatches text) /\
   checkRegisters (body ++ 10 :: text) = map (shiftLines 1) (checkRegisters text)).
Proof.
  intros F; split; [apply split_prefix; exact F | split; [| split]].
  - apply prepend_lines; exact F.
  - intros k NI NE; apply includes_app_LF; assumption.
  - intros Free; apply prepend_registers; assumption.
Qed.

Lemma prepending_a_line_witness :
  checkLines asciiOnly (str "foo" ++ 10 :: str "hlt 1") =
    checkLine asciiOnly 0 (str "foo")
      ++ map (shiftLines 1) (checkLines asciiOnly (str "hlt 1")).
Proof.
  apply (prepending_a_line asciiOnly (str "foo") (str "hlt 1")).
  vm_compute; repeat constructor; discriminate.
Defined.

(** ** What a quick fix does to the findings *)

Lemma fix_repairs (up : jsstring -> jsstring) (key body text : jsstring)
  (i1 i2 i3 : bool) :
  fixText key = body ++ [10] ->
  forallb (fun c => negb (c =? 10) && negb (c =? 13)) body = true ->
  registerFree (body ++ [10]) = true ->
  checkLine up 0 body = [] ->
  includes body (str "meta.name") = i1 ->
  includes body (str "meta.version") = i2 ->
  includes body (str "meta.author") = i3 ->
  checkMeta (fixText key ++ text) =
    map missingKey
        (filter (fun k => negb (includes text k))
                (filter (fun k => negb (includes body k)) requiredKeys)) /\
  checkRegisters (fixText key ++ text) = map (shiftLines 1) (checkRegisters text) /\
  checkLines up (fixText key ++ text) = map (shiftLines 1) (checkLines up text).
Proof.
  intros E B Free Silent I1 I2 I3.
  assert (F : Forall (fun c => c <> 10 /\ c <> 13) body).
  { apply Forall_forall; intros c Ic; rewrite forallb_forall in B.
    specialize (B c Ic); apply andb_prop in B; destruct B as [B1 B2].
    apply negb_true_iff in B1, B2; apply N.eqb_neq in B1, B2; auto. }
  assert (T : fixText key ++ text = body ++ 10 :: text)
    by (rewrite E, <- app_assoc; reflexivity).
  rewrite T; split; [| split].
  - unfold checkMeta, requiredKeys; cbn [flat_map filter app].
    rewrite !(includes_app_LF _ body text)
      by (first [discriminate | vm_compute; intuition discriminate]).
    rewrite I1, I2, I3.
    destruct i1, i2, i3; cbn [negb orb filter map app];
      destruct (includes text (str "meta.name")),
        (includes text (str "meta.version")), (includes text (str "meta.author"));
      reflexivity.
  - exact (proj2 (prepend_registers body text F Free)).
  - rewrite (prepend_lines up body text F), Silent; reflexivity.
Qed.

(** A quick fix removes its notice and disturbs nothing else: after the
    action for a required key is applied, the notice of that key is
    gone, the notices of the other two keys are as before, and the
    register and per-line findings are those of the old text moved down
    one line. *)
Theorem quick_fix_repairs_its_key (up : jsstring -> jsstring)
  (document : TextDocument) (key text : jsstring) :
  In key requiredKeys ->
  let fixed := applyActions [insertKeyAction document key] text in
  fixed = fixText key ++ text /\
  includes fixed key = true /\
  checkMeta fixed =
    map missingKey
        (filter (fun k => negb (includes text k))
                (filter (fun k => negb (eqbS k key)) requiredKeys)) /\
  computeDiagnostics up fixed =
    checkMeta fixed
      ++ map (shiftLines 1) (checkRegisters text ++ checkLines up text).
Proof.
  intros I fixed.
  assert (E : fixed = fixText key ++ text) by reflexivity.
  assert (R : checkMeta (fixText key ++ text) =
              map missingKey
                  (filter (fun k => negb (includes text k))
                          (filter (fun k => negb (eqbS k key)) requiredKeys)) /\
              checkRegisters (fixText key ++ text) =
                map (shiftLines 1) (checkRegisters text) /\
              checkLines up (fixText key ++ text) =
                map (shiftLines 1) (checkLines up text)).
  { destruct I as [<- | [<- | [<- | []]]].
    - apply (fix_repairs up _ (str "meta.name 'Program'") text true false false);
        vm_compute; reflexivity.
    - apply (fix_repairs up _ (str "meta.version '0.1'") text false true false);
        vm_compute; reflexivity.
    - apply (fix_repairs up _ (str "meta.author 'Me'") text false false true);
        vm_compute; reflexivity. }
  destruct R as (RM & RR & RL).
  split; [exact E | split; [| split]].
  - rewrite E; apply includes_occursIn; exists [], (str " '" ++ defaultText key
                                                    ++ str "'" ++ [10] ++ text).
    unfold fixText; rewrite <- !app_assoc; reflexivity.
  - rewrite E; exact RM.
  - rewrite E; unfold computeDiagnostics; rewrite RR, RL, map_app; reflexivity.
Qed.

Lemma quick_fix_repairs_its_key_witness :
  includes (applyActions
              [insertKeyAction {| uri := []; languageId := []; getText := [] |}
                               (str "meta.version")]
              (str "hlt"))
           (str "meta.version") = true.
Proof.
  apply (quick_fix_repairs_its_key asciiOnly
           {| uri := []; languageId := []; getText := [] |}
           (str "meta.version") (str "hlt")).
  simpl; auto.
Defined.

Lemma applyActions_keys (document : TextDocument) (ks : list jsstring) :
  forall text,
    applyActions (map (insertKeyAction document) ks) text =
      fold_left (fun t k => fixText k ++ t) ks text.
Proof.
  induction ks as [|k ks IH]; intros text; [reflexivity |].
  unfold applyActions in *; simpl; rewrite IH; reflexivity.
Qed.

Lemma includes_app_r (a t k : jsstring) :
  includes t k = true -> includes (a ++ t) k = true.
Proof.
  rewrite !includes_occursIn; intros (pre & post & ->).
  exists (a ++ pre), post; rewrite <- app_assoc; reflexivity.
Qed.

Lemma includes_fixText (k t : jsstring) : includes (fixText k ++ t) k = true.
Proof.
  apply includes_occursIn; exists [], (str " '" ++ defaultText k ++ str "'" ++ [10] ++ t).
  unfold fixText; rewrite <- !app_assoc; reflexivity.
Qed.

Lemma fold_fixes_include (ks : list jsstring) :
  forall text k,
    In k ks \/ includes text k = true ->
    includes (fold_left (fun t k' => fixText k' ++ t) ks text) k = true.
Proof.
  induction ks as [|k' ks IH]; intros text k H; simpl.
  - destruct H as [[] | H]; exact H.
  - apply IH; destruct H as [[<- | I] | H].
    + right; apply includes_fixText.
    + left; exact I.
    + right; apply includes_app_r; exact H.
Qed.

(** Applying every quick fix offered for a validation run, one after the
    other, leaves a document with all three keys: the next run has no
    missing-key notice, no Information finding and no finding that
    carries a code, so the provider offers nothing more. *)
Theorem applying_all_quick_fixes (up : jsstring -> jsstring)
  (document : TextDocument) (range : Range) (text : jsstring) :
  let fixed :=
    applyActions (provideCodeActions document range (computeDiagnostics up text))
                 text in
  checkMeta fixed = [] /\
  filter isInformation (computeDiagnostics up fixed) = [] /\
  provideCodeActions document range (computeDiagnostics up fixed) = [].
Proof.
  intros fixed.
  assert (All : forall k, In k requiredKeys -> includes fixed k = true).
  { intros k I; unfold fixed.
    rewrite provideCodeActions_validation, applyActions_keys.
    apply fold_fixes_include.
    destruct (includes text k) eqn:E; [right; reflexivity | left].
    apply filter_In; split; [exact I | rewrite E; reflexivity]. }
  assert (M : checkMeta fixed = []).
  { unfold checkMeta, requiredKeys; simpl.
    rewrite !All by (unfold requiredKeys; simpl; auto); reflexivity. }
  split; [exact M | split].
  - unfold computeDiagnostics; rewrite M; apply errors_not_information.
  - rewrite provideCodeActions_validation.
    replace (filter (fun key => negb (includes fixed key)) requiredKeys)
      with (@nil jsstring); [reflexivity |].
    symmetry; apply filter_none; intros k I; rewrite (All k I); reflexivity.
Qed.

(** ** Quick fixes for any diagnostic *)

(** The provider looks at the code alone.  A diagnostic whose code
    starts with [missing_meta] gets one action: the key is the code
    without its first eight characters, the edit is a single insertion
    at (0,0) of the key, a quoted default and a line break, and a key
    outside the three known ones gets the default text [undefined].  A
    diagnostic with no code, or with any other code, gets none. *)
Theorem quick_fix_reads_the_code (document : TextDocument) (range : Range)
  (d : Diagnostic) :
  (forall c,
      code d = Some c -> startsWith c (str "missing_meta") = true ->
      let key := skipn 8 c in
      provideCodeActions document range [d] =
        [ {| title := str "Insert " ++ key;
             actionKind := QuickFix;
             edit := [ {| insertUri := uri document;
                          insertAt := {| line := 0; character := 0 |};
                          newText := key ++ str " '" ++ defaultText key
                                       ++ str "'" ++ [10] |} ];
             diagnostics := [d] |} ] /\
      (~ In key requiredKeys -> defaultText key = str "undefined")) /\
  (code d = None -> provideCodeActions document range [d] = []) /\
  (forall c,
      code d = Some c -> startsWith c (str "missing_meta") = false ->
      provideCodeActions document range [d] = []).
Proof.
  assert (One : provideCodeActions document range [d] = quickFixFor document d)
    by (unfold provideCodeActions; cbn [flat_map]; apply app_nil_r).
  rewrite One; unfold quickFixFor; split; [| split].
  - intros c C S; set (key := skipn 8 c); rewrite C, S.
    assert (K : replaceFirst c (str "missing_") [] = key).
    { apply startsWith_prefix in S; destruct S as (post & ->).
      change (str "missing_meta" ++ post)
        with (str "missing_" ++ (str "meta" ++ post)).
      rewrite replaceFirst_prefix; reflexivity. }
    rewrite K; split; [reflexivity |].
    intros NI; unfold defaultText, defaults; cbn [lookupDefault].
    destruct (eqbS (str "meta.name") key) eqn:E1;
      [apply eqbS_eq in E1; destruct NI; rewrite <- E1; simpl; auto |].
    destruct (eqbS (str "meta.version") key) eqn:E2;
      [apply eqbS_eq in E2; destruct NI; rewrite <- E2; simpl; auto |].
    destruct (eqbS (str "meta.author") key) eqn:E3;
      [apply eqbS_eq in E3; destruct NI; rewrite <- E3; simpl; auto |].
    reflexivity.
  - intros C; rewrite C; reflexivity.
  - intros c C S; rewrite C, S; reflexivity.
Qed.

Lemma quick_fix_reads_the_code_witness :
  provideCodeActions {| uri := []; languageId := []; getText := [] |}
                     (lineRange 0 0)
                     [ {| range := lineRange 0 0; message := [];
                          severity := Warning;
                          code := Some (str "missing_meta.licence") |} ] =
    [ {| title := str "Insert " ++ skipn 8 (str "missing_meta.licence");
         actionKind := QuickFix;
         edit := [ {| insertUri := [];
                      insertAt := {| line := 0; character := 0 |};
                      newText := skipn 8 (str "missing_meta.licence") ++ str " '"
                                   ++ defaultText (skipn 8 (str "missing_meta.licence"))
                                   ++ str "'" ++ [10] |} ];
         diagnostics := [ {| range := lineRange 0 0; message := [];
                             severity := Warning;
                             code := Some (str "missing_meta.licence") |} ] |} ].
Proof.
  apply (proj1 (quick_fix_reads_the_code
                  {| uri := []; languageId := []; getText := [] |} (lineRange 0 0)
                  {| range := lineRange 0 0; message := []; severity := Warning;
                     code := Some (str "missing_meta.licence") |})
               (str "missing_meta.licence")).
  - reflexivity.
  - vm_compute; reflexivity.
Defined.

(** ** White space around a line *)

Lemma trim_idempotent (s : jsstring) : trim (trim s) = trim s.
Proof.
  destruct (trim_head s) as [E | (c & rest & E & Sp)]; rewrite E; [reflexivity |].
  unfold trim at 1; simpl; rewrite Sp, <- E; unfold trim.
  apply trimEnd_idempotent.
Qed.

(** A line is judged by its trimmed text alone: white space put before
    or after a line changes none of its findings, not even their
    ranges, which count columns from the first character that is not
    white space. *)
Theorem surrounding_white_space_is_ignored (up : jsstring -> jsstring)
  (lineNum : nat) (rawLine pre post : jsstring) :
  forallb isSpace pre = true -> forallb isSpace post = true ->
  checkLine up lineNum (pre ++ rawLine ++ post) = checkLine up lineNum rawLine /\
  checkLine up lineNum (trim rawLine) = checkLine up lineNum rawLine.
Proof.
  intros Pre Post.
  assert (T : forall s, checkLine up lineNum (trim s) = checkLine up lineNum s)
    by (intros s; unfold checkLine; rewrite trim_idempotent; reflexivity).
  split; [| apply T].
  rewrite <- (T (pre ++ rawLine ++ post)), <- (T rawLine); f_equal.
  assert (S : trimStart (pre ++ rawLine ++ post) = trimStart (rawLine ++ post)).
  { clear Post; induction pre as [|c pre IH]; [reflexivity |].
    simpl in Pre; apply andb_prop in Pre; destruct Pre as [C Pre].
    simpl; rewrite C; exact (IH Pre). }
  assert (E : forall s, trimEnd (s ++ post) = trimEnd s).
  { assert (P : trimEnd post = []).
    { clear S; induction post as [|c post' IH]; [reflexivity |].
      simpl in Post; apply andb_prop in Post; destruct Post as [C Post].
      simpl; rewrite (IH Post), C; reflexivity. }
    induction s as [|c s IH]; [exact P |].
    simpl; rewrite IH; reflexivity. }
  unfold trim; rewrite S.
  destruct (trimStart_head rawLine) as [A | (c & rest & A & Sp)].
  - rewrite A; apply trimStart_all_space in A.
    assert (All : forallb isSpace (rawLine ++ post) = true)
      by (rewrite forallb_app, A, Post; reflexivity).
    apply trimStart_all_space in All; rewrite All; reflexivity.
  - destruct (trimStart_split rawLine) as (lead & B & L).
    assert (S' : trimStart (rawLine ++ post) = trimStart rawLine ++ post).
    { rewrite B at 1; rewrite A; clear B.
      induction lead as [|x lead IH]; simpl.
      - rewrite Sp; reflexivity.
      - simpl in L; apply andb_prop in L; destruct L as [X L].
        rewrite X; exact (IH L). }
    rewrite S'; apply E.
Qed.

Lemma surrounding_white_space_is_ignored_witness :
  checkLine asciiOnly 2 (str "   " ++ str "foo r1" ++ str " ") =
  checkLine asciiOnly 2 (str "foo r1").
Proof.
  apply (surrounding_white_space_is_ignored asciiOnly 2%nat (str "foo r1")
           (str "   ") (str " ")); vm_compute; reflexivity.
Defined.

(** ** How many findings a line can have *)

Lemma signature_length (key : jsstring) (sig : Signature) :
  lookup key = Some sig -> (length sig <= 3)%nat.
Proof.
  intros L; apply lookupIn_In in L.
  assert (F : Forall (fun e : jsstring * Signature => (length (snd e) <=? 3)%nat = true)
                     INSTRUCTIONS) by (repeat constructor).
  rewrite Forall_forall in F; apply Nat.leb_le; exact (F _ L).
Qed.

Lemma checkLine_length (up : jsstring -> jsstring) (lineNum : nat)
  (rawLine : jsstring) :
  (length (checkLine up lineNum rawLine) <= 3)%nat.
Proof.
  unfold checkLine.
  destruct (trim rawLine) as [|c l]; [simpl; lia |].
  destruct (lineTokens (c :: l)) as [|firstPart args]; [simpl; lia |].
  destruct (lookup (toUpperCase up firstPart)) as [signature|] eqn:L.
  - destruct (negb (length args =? length signature)%nat); [simpl; lia |].
    rewrite (flat_map_length_filter _
               (fun i => negb (operandValid (nth i signature [])
                                            (nth i args (str "undefined"))))).
    + pose proof (filter_length_le
                    (fun i => negb (operandValid (nth i signature [])
                                                 (nth i args (str "undefined"))))
                    (seq 0 (length signature))) as B.
      rewrite length_seq in B; pose proof (signature_length _ _ L); lia.
    + intros i _; unfold checkOperand; destruct (operandValid _ _); reflexivity.
  - destruct (startsWith firstPart (str "#")); [simpl; lia |].
    destruct (arrayIncludes metaKeys firstPart); [simpl; lia |].
    destruct (startsWith firstPart (str ".")); simpl; lia.
Qed.

Lemma checkLinesFrom_length (up : jsstring -> jsstring) (lines : list jsstring) :
  forall n, (length (checkLinesFrom up n lines) <= 3 * length lines)%nat.
Proof.
  induction lines as [|l lines IH]; intros n; simpl; [lia |].
  rewrite length_app; pose proof (checkLine_length up n l); specialize (IH (S n)); lia.
Qed.

(** The findings are bounded by the size of the text: a line has at
    most three per-line findings (no instruction has more than three
    operand slots), so a run has at most three notices, one finding per
    register match and three findings per line. *)
Theorem findings_are_bounded (up : jsstring -> jsstring) (text : jsstring) :
  (forall lineNum rawLine, (length (checkLine up lineNum rawLine) <= 3)%nat) /\
  (length (checkLines up text) <= 3 * length (split text))%nat /\
  (length (computeDiagnostics up text)
   <= 3 + length (registerMatches text) + 3 * length (split text))%nat.
Proof.
  assert (L : (length (checkLines up text) <= 3 * length (split text))%nat)
    by apply checkLinesFrom_length.
  split; [apply checkLine_length | split; [exact L |]].
  unfold computeDiagnostics; rewrite !length_app.
  assert (M : (length (checkMeta text) <= 3)%nat).
  { unfold checkMeta, requiredKeys; simpl.
    destruct (includes text (str "meta.name")), (includes text (str "meta.version")),
      (includes text (str "meta.author")); simpl; lia. }
  assert (R : (length (checkRegisters text) <= length (registerMatches text))%nat).
  { unfold checkRegisters; induction (registerMatches text) as [|m ms IH];
      simpl; [lia |].
    rewrite length_app; unfold checkRegisterMatch at 1.
    destruct (outOfRange _); simpl; lia. }
  lia.
Qed.
